(** * go-lumber: the HTTP transports of the lumberjack batch protocol

    A shallow embedding of
    - [server/es]   (the ES-bulk compatible endpoint),
    - [server/http] (the version-dispatching bulk endpoint),
    - [client/v2/http.go] (the single-shot HTTP push client),
    and the properties of their request handling.

    Handlers are programs in a small monad over a [world]: the response
    writer, the ingestion channel, the gates of the batches and a log of
    the effects in the order they happen.  A goroutine that waits on
    something that never comes leaves the run [Parked]. *)

From stdpp Require Import base gmap sets list strings.
From Stdlib Require Import ZArith Lia.

#[local] Set Warnings "-register-all".
#[local] Open Scope Z_scope.
#[local] Open Scope nat_scope.
#[local] Open Scope stdpp_scope.

(** ** Go data *)

(** A Go [error]: [None] is [nil], [Some msg] an error whose [Error()] is
    [msg]. *)
Abbreviation error := (option string).

(** The double quote character, and a quoted JSON name. *)
Definition dq : string := String (Ascii.ascii_of_nat 34) EmptyString.
Definition quoted (s : string) : string := dq +:+ s +:+ dq.

(** [strings.Contains]. *)
Definition strings_Contains (s substr : string) : bool :=
  match substr with
  | EmptyString => true
  | _ => bool_decide (is_Some (String.index 0 substr s))
  end.

(** [interface{}] values as [encoding/json] produces them; a
    [map[string]interface{}] may be the nil map.  (The handlers never look
    into an event: a number stands for itself, whatever its Go type.) *)
Inductive value : Type :=
| VNull
| VBool (b : bool)
| VNum (z : Z)
| VStr (s : string)
| VArr (l : list value)
| VMap (m : option (gmap string value)).

(** [map[string]interface{}]: [None] is the nil map. *)
Abbreviation gomap := (option (gmap string value)).

(** A slice, as far as [len], [cap] and [append] see it. *)
Record slice (A : Type) : Type := mkSlice { elems : list A; cap : nat }.
Arguments mkSlice {A} elems cap.
Arguments elems {A} s.
Arguments cap {A} s.

Definition len {A} (s : slice A) : nat := length (elems s).

(** [append(s, x)]: in place while there is room.  When the slice is full
    the runtime allocates a larger array; the language only promises room
    for the new element, the doubling below is what the gc runtime does for
    small slices (and it gives capacity 1 from capacity 0). *)
Definition append {A} (s : slice A) (x : A) : slice A :=
  if bool_decide (len s < cap s)
  then mkSlice (elems s ++ [x]) (cap s)
  else mkSlice (elems s ++ [x]) (Nat.max (len s + 1) (2 * cap s)).

(** ** net/http *)

(** [http.Header]; keys are in canonical form, as net/http keeps them. *)
Abbreviation Header := (gmap string (list string)).

Definition Header_Get (h : Header) (key : string) : string :=
  match h !! key with
  | Some (v :: _) => v
  | _ => ""
  end.

Definition Header_Add (h : Header) (key v : string) : Header :=
  <[key := default [] (h !! key) ++ [v]]> h.

(** One result of [json.Decoder.Decode] into a [map[string]interface{}]. *)
Inductive dec_item : Type :=
| DecMap (m : gomap)     (* a document was decoded; JSON null leaves the nil map *)
| DecErr (e : string).   (* Decode failed *)

(** The request body is read by external decoders only
    ([gzip.NewReader], [json.Decoder], the lumberjack codec).  It is
    represented by what they make of its bytes: [docs] is the sequence
    of results [json.Decoder] gives when it reads the body as it is,
    [gzip_docs] is the outcome of [gzip.NewReader] on it: its error, or
    the results [json.Decoder] gives reading through the gzip reader.  A
    stray closing bracket, at which [More] answers false, ends the
    sequence. *)
Record Body : Type := mkBody {
  docs : list dec_item;
  gzip_docs : string + list dec_item;
}.

Record Request : Type := mkRequest {
  Method : string;
  ReqHeader : Header;
  ReqBody : Body;
  Host : string;
  RemoteAddr : string;
}.

(** What has been written to the response body.  [Gzipped s] stands for
    the gzip stream that a [gzip.Writer] on the response produces for the
    content [s] written to it so far. *)
Inductive chunk : Type :=
| Plain (s : string)
| Gzipped (s : string).

(** The state of an [http.ResponseWriter]. *)
Record response : Type := mkResponse {
  header : Header;            (* resp.Header() *)
  status : option nat;        (* the status line, once written *)
  sent_header : Header;       (* the header that went out with it *)
  written : list chunk;       (* body writes, oldest first *)
  seen : nat;                 (* how many of them have been flushed to the client *)
  is_flusher : bool;          (* whether resp implements http.Flusher *)
}.

(** ** lj *)

(** Modelled from the spec: [lj.Batch] and [lj.NewBatch] are not among the
    sources.  A Batch is "an immutable-after-creation ordered sequence of
    Events plus a completion gate", the gate open at creation.  [gate]
    names the gate (the batch is a pointer in Go: two batches with equal
    events are still two batches). *)
Record Batch : Type := mkBatch {
  Events : list value;
  gate : nat;
}.

(** ** The world a handler runs in *)

(** [info] of [es.serveBulk]: a sub-batch with the metadata of its events. *)
Record info : Type := mkInfo {
  batch : Batch;
  meta : list gomap;
}.

(** The effects a handler has on what it shares with others, in the order
    they happen. *)
Inductive effect : Type :=
| EEnqueue (b : Batch)         (* h.ch <- batch went through *)
| EAwait (b : Batch)           (* <-batch.Await() returned *)
| EWriteHeader (code : nat)    (* resp.WriteHeader *)
| EWrite (s : string)          (* Write on the response or on its gzip writer *)
| EFlush                       (* flusher.Flush *)
| ECodec (version : string)    (* a codec constructor of the version table was called *)
| EReadBatch.                  (* ljReader.ReadBatch was called *)

Record world : Type := mkWorld {
  resp : response;
  batches : list info;         (* the channel between the decode loop and the drain task *)
  ch : list Batch;             (* the ingestion channel: what has been enqueued, oldest first *)
  next_gate : nat;             (* the next batch to be allocated *)
  body_reads : nat;            (* reads made on the request body *)
  log : list effect;           (* effects, oldest first *)
  completes : nat → bool;      (* environment: the consumer completes this gate *)
  ticks : nat;                 (* environment: keepalive timer expirations before the gate closes *)
}.

Definition set_resp (f : response → response) (w : world) : world :=
  mkWorld (f (resp w)) (batches w) (ch w) (next_gate w) (body_reads w)
          (log w) (completes w) (ticks w).
Definition set_batches (f : list info → list info) (w : world) : world :=
  mkWorld (resp w) (f (batches w)) (ch w) (next_gate w) (body_reads w)
          (log w) (completes w) (ticks w).
Definition set_ch (f : list Batch → list Batch) (w : world) : world :=
  mkWorld (resp w) (batches w) (f (ch w)) (next_gate w) (body_reads w)
          (log w) (completes w) (ticks w).
Definition set_next_gate (n : nat) (w : world) : world :=
  mkWorld (resp w) (batches w) (ch w) n (body_reads w)
          (log w) (completes w) (ticks w).
Definition set_body_reads (n : nat) (w : world) : world :=
  mkWorld (resp w) (batches w) (ch w) (next_gate w) n
          (log w) (completes w) (ticks w).
Definition emit (e : effect) (w : world) : world :=
  mkWorld (resp w) (batches w) (ch w) (next_gate w) (body_reads w)
          (log w ++ [e]) (completes w) (ticks w).

(** How a run of a goroutine ends. *)
Inductive outcome (A : Type) : Type :=
| Done (a : A) (w : world)     (* it returned *)
| Parked (w : world)           (* it waits for something that never happens *)
| Panicked (w : world).        (* it panicked *)
Arguments Done {A} a w.
Arguments Parked {A} w.
Arguments Panicked {A} w.

Definition M (A : Type) : Type := world → outcome A.

#[global] Instance M_ret : MRet M := λ A a w, Done a w.
#[global] Instance M_bind : MBind M := λ A B f m w,
  match m w with
  | Done a w' => f a w'
  | Parked w' => Parked w'
  | Panicked w' => Panicked w'
  end.

Definition modify (f : world → world) : M unit := λ w, Done tt (f w).
Definition gets {A} (f : world → A) : M A := λ w, Done (f w) w.
Definition panic {A} : M A := λ w, Panicked w.

(** [defer d] around a function body: [d] runs when the body returns and
    when it panics. *)
Definition defer {A} (d : M unit) (body : M A) : M A := λ w,
  match body w with
  | Done a w' => (d ;; mret a) w'
  | Parked w' => Parked w'
  | Panicked w' =>
      match d w' with
      | Done _ w'' | Panicked w'' => Panicked w''
      | Parked w'' => Parked w''
      end
  end.

(** [make([]T, 0, n)]. *)
Definition make {A} (n : Z) : M (slice A) :=
  if bool_decide (n < 0)%Z then panic else mret (mkSlice [] (Z.to_nat n)).

(** *** The response writer *)

Definition resp_WriteHeader (code : nat) : M unit :=
  modify (λ w, emit (EWriteHeader code)
    (set_resp (λ r,
      match status r with
      | Some _ => r     (* superfluous call: ignored *)
      | None => mkResponse (header r) (Some code) (header r) (written r) (seen r) (is_flusher r)
      end) w)).

Definition resp_Header_Add (key v : string) : M unit :=
  modify (set_resp (λ r,
    mkResponse (Header_Add (header r) key v) (status r) (sent_header r)
               (written r) (seen r) (is_flusher r))).

(** The status line goes out with the first body write at the latest. *)
Definition implicit_status (r : response) : response :=
  match status r with
  | Some _ => r
  | None => mkResponse (header r) (Some 200) (header r) (written r) (seen r) (is_flusher r)
  end.

Definition put_chunk (c : chunk) (r : response) : response :=
  let r := implicit_status r in
  mkResponse (header r) (status r) (sent_header r) (written r ++ [c]) (seen r) (is_flusher r).

Definition resp_Write (s : string) : M unit :=
  modify (λ w, emit (EWrite s) (set_resp (put_chunk (Plain s)) w)).

Definition resp_Flush : M unit :=
  modify (λ w, emit EFlush
    (set_resp (λ r, let r := implicit_status r in
       mkResponse (header r) (status r) (sent_header r) (written r)
                  (length (written r)) (is_flusher r)) w)).

(** *** Batches, gates and the ingestion channel *)

(** Modelled from the spec: [lj.NewBatch(events)] "constructs a Batch whose
    gate is open". *)
Definition NewBatch (events : list value) : M Batch := λ w,
  Done (mkBatch events (next_gate w)) (set_next_gate (S (next_gate w)) w).

(** Modelled from the spec: [<-batch.Await()] "becomes observable exactly
    when the gate closes"; the consumer closes it or never does. *)
Definition Await (b : Batch) : M unit := λ w,
  if completes w (gate b) then Done tt (emit (EAwait b) w) else Parked w.

(** [h.ch <- batch].  The channel is bounded and a send waits for room; the
    consumer makes room, so the send goes through and the channel is
    represented by what has been put on it. *)
Definition ch_send (b : Batch) : M unit :=
  modify (λ w, emit (EEnqueue b) (set_ch (λ q, q ++ [b]) w)).

(** A response writer nobody has touched, in front of the ingestion
    channel [q]. *)
Definition fresh_response (fl : bool) : response :=
  mkResponse ∅ None ∅ [] 0 fl.
Definition fresh_world (q : list Batch) (n : nat) (fl : bool)
    (done_ : nat → bool) (k : nat) : world :=
  mkWorld (fresh_response fl) [] q n 0 [] done_ k.

(** The content of the body: what was written, gzip undone. *)
Definition chunk_text (c : chunk) : string :=
  match c with Plain s | Gzipped s => s end.
Fixpoint body_text (l : list chunk) : string :=
  match l with
  | [] => ""
  | c :: l => chunk_text c +:+ body_text l
  end.

(** ** server/es: the ES-bulk compatible endpoint *)

Module Es.

Record httpHandler : Type := mkHandler {
  silent : bool;
  split : Z;
  ownCh : bool;
}.

(** The [io.Writer] of [serveBulk]: the response, or the gzip writer on it. *)
Inductive writer : Type := WResp | WGzip.

(** A write on the gzip writer extends the gzip stream on the response. *)
Fixpoint gz_put (s : string) (l : list chunk) : list chunk :=
  match l with
  | [] => [Gzipped s]
  | [Gzipped x] => [Gzipped (x +:+ s)]
  | c :: l => c :: gz_put s l
  end.

Definition gz_Write (s : string) (r : response) : response :=
  let r := implicit_status r in
  mkResponse (header r) (status r) (sent_header r) (gz_put s (written r))
             (seen r) (is_flusher r).

Definition writer_Write (wr : writer) (s : string) : M unit :=
  match wr with
  | WResp => resp_Write s
  | WGzip => modify (λ w, emit (EWrite s) (set_resp (gz_Write s) w))
  end.

(** [gz.Close()] ends the gzip stream (it is the empty stream when nothing
    was written). *)
Definition gz_Close : M unit := modify (set_resp (gz_Write "")).

Definition items_open : string := "{" +:+ quoted "items" +:+ ": [".
Definition items_close : string := "]}".
Definition created : string :=
  "{" +:+ quoted "created" +:+ ":{" +:+ quoted "status" +:+ ": 200}}".

(** [batches <- info{...}].  The channel holds two groups in Go; the drain
    task is its only receiver and takes the groups in the order they were
    sent, which is all the handler's output depends on. *)
Definition batches_send (i : info) : M unit :=
  modify (set_batches (λ q, q ++ [i])).

(** [for ; i < len(info.meta); i++ { writer.Write(`,{...}`) }], with
    [count] iterations to go. *)
Fixpoint write_more (wr : writer) (count : nat) : M unit :=
  match count with
  | 0 => mret tt
  | S k => writer_Write wr ("," +:+ created) ;; write_more wr k
  end.

(** One iteration of [for info := range batches] in the drain goroutine;
    the result is the value of [first] after it. *)
Definition drain_one (h : httpHandler) (wr : writer) (first : bool) (i : info) : M bool :=
  let batch := batch i in
  ch_send batch ;;
  if silent h then mret first
  else if bool_decide (length (meta i) = 0) then mret first
  else
    '(first, i0) ← (if first
                    then writer_Write wr created ;; mret (false, 1)
                    else mret (first, 0));
    write_more wr (length (meta i) - i0) ;;
    Await batch ;;
    mret first.

Fixpoint drain_loop (h : httpHandler) (wr : writer) (first : bool) (l : list info) : M unit :=
  match l with
  | [] => mret tt
  | i :: l => first ← drain_one h wr first i; drain_loop h wr first l
  end.

(** The goroutine started by [serveBulk].  It shares nothing with the
    decode loop but the channel [batches], so its effects are those of its
    body on the groups sent, in the order sent; [wg.Wait()] is where the
    handler meets them. *)
Definition drain (h : httpHandler) (wr : writer) : M unit := λ w,
  drain_loop h wr true (batches w) (set_batches (λ _, []) w).

(** [decoder.Decode]: one read on the body. *)
Definition Decode : M unit :=
  modify (λ w, set_body_reads (S (body_reads w)) w).

(** The decode loop of [serveBulk] on the results [dec] still to come from
    the decoder; it gives the working group and [err] as the loop leaves
    them. *)
Fixpoint decode_loop (h : httpHandler) (dec : list dec_item)
    (events : slice value) (metas : slice gomap)
    : M (slice value * slice gomap * error) :=
  match dec with
  | [] => mret (events, metas, None)                    (* !decoder.More() *)
  | d :: dec =>
    Decode ;;
    match d with
    | DecErr e => mret (events, metas, Some e)
    | DecMap meta =>
      Decode ;;
      match dec with
      | [] => mret (events, metas, Some "EOF")
      | DecErr e :: _ => mret (events, metas, Some e)
      | DecMap evt :: dec =>
        match evt with
        | None => panic                                 (* assignment to entry in nil map *)
        | Some m =>
          let evt := <["@metadata" := VMap meta]> m in
          let events := append events (VMap (Some evt)) in
          let metas := append metas meta in
          if bool_decide (len events = cap events) then
            b ← NewBatch (elems events);
            batches_send (mkInfo b (elems metas)) ;;
            metas ← make (split h);
            events ← make (split h);
            decode_loop h dec events metas
          else decode_loop h dec events metas
        end
      end
    end
  end.

(** What the decoder of [serveBulk] will find: it reads the body, through
    [gzip.NewReader] when the request says so. *)
Definition body_docs (requ : Request) : string + list dec_item :=
  if bool_decide (Header_Get (ReqHeader requ) "Content-Encoding" = "gzip")
  then gzip_docs (ReqBody requ)
  else inr (docs (ReqBody requ)).

(** [gzip.NewReader] reads the gzip header off the body. *)
Definition open_reader (requ : Request) : M (string + list dec_item) :=
  (if bool_decide (Header_Get (ReqHeader requ) "Content-Encoding" = "gzip")
   then modify (λ w, set_body_reads (S (body_reads w)) w) else mret tt) ;;
  mret (body_docs requ).

(** [serveBulk] from [json.NewDecoder] on: the items array is opened, the
    documents [dec] are decoded into groups, the drain task is waited for
    and the array is closed. *)
Definition serveBulk_stream (h : httpHandler) (dec : list dec_item) (wr : writer) : M unit :=
  metas ← make (split h);
  events ← make (split h);
  resp_Header_Add "Content-Type" "application/json" ;;
  resp_WriteHeader 200 ;;
  writer_Write wr items_open ;;
  '(events, metas, err) ← decode_loop h dec events metas;
  (if bool_decide (0 < len events)
   then b ← NewBatch (elems events); batches_send (mkInfo b (elems metas))
   else mret tt) ;;
  drain h wr ;;                                      (* close(batches); wg.Wait() *)
  writer_Write wr items_close.

Definition serveBulk_body (h : httpHandler) (requ : Request) (wr : writer) : M unit :=
  reader ← open_reader requ;
  match reader with
  | inl err =>
      resp_WriteHeader 400 ;;
      resp_Header_Add "Content-Type" "text/plain" ;;
      writer_Write wr err
  | inr dec => serveBulk_stream h dec wr
  end.

Definition serveBulk (h : httpHandler) (requ : Request) : M unit :=
  if strings_Contains (Header_Get (ReqHeader requ) "Accept-Encoding") "gzip"
  then
    (* gz, _ := gzip.NewWriterLevel(writer, 3); defer gz.Close(); writer = gz *)
    defer gz_Close
      (resp_Header_Add "Content-Encoding" "gzip" ;;
       serveBulk_body h requ WGzip)
  else serveBulk_body h requ WResp.

Definition ServeHTTP (h : httpHandler) (requ : Request) : M unit :=
  if bool_decide (Method requ = "HEAD") then resp_WriteHeader 200
  else if bool_decide (Method requ = "POST") then serveBulk h requ
  else resp_WriteHeader 405.

End Es.

(** ** server/internal: what a codec gives the handler *)

Module Internal.

(** The [internal.ACKWriter] interface, as the table of its methods. *)
Record ACKWriter : Type := mkACKWriter {
  HasKeepalive : bool;
  Keepalive : Z → M error;
  ACK : Z → M error;
}.

(** The [internal.BatchReader] interface. *)
Record BatchReader : Type := mkBatchReader {
  ReadBatch : M (string + Batch);
}.

End Internal.

(** ** server/http: the version-dispatching bulk endpoint *)

Module Http.

Import Internal.

(** [options]; durations are in nanoseconds.  The JSON decoder, the TLS
    configuration and the channel handle are passed on untouched and left
    out. *)
Record options : Type := mkOptions {
  timeout : Z;
  keepalive : Z;
}.

Definition Option : Type := options → options * error.

Definition second : Z := 1000000000.

Definition Timeout (to : Z) : Option := λ opt,
  if bool_decide (to < 0)%Z
  then (opt, Some "timeouts must not be negative")
  else (mkOptions to (keepalive opt), None).

Definition Keepalive (kl : Z) : Option := λ opt,
  if bool_decide (kl < 0)%Z
  then (opt, Some "keepalive must not be negative")
  else (mkOptions (timeout opt) kl, None).

Fixpoint apply_each (opts : list Option) (o : options) : options * error :=
  match opts with
  | [] => (o, None)
  | opt :: opts =>
      match opt o with
      | (o, Some err) => (o, Some err)
      | (o, None) => apply_each opts o
      end
  end.

Definition applyOptions (opts : list Option) : options * error :=
  apply_each opts (mkOptions (30 * second) (3 * second)).

Record handlerConn : Type := mkConn {
  requ : Request;               (* resp is the response of the world *)
}.

(** A codec constructor of the version table. *)
Abbreviation codec := (handlerConn → M (string + (BatchReader * ACKWriter))).

Record httpHandler : Type := mkHandler {
  ownCh : bool;
  opts : options;
  versions : gmap string codec;
}.

(** The handler [newServer] sets up, around the codec that
    [v2.MakeIOHandler] returns. *)
Definition newHandler (own : bool) (cfg : options) (v2 : codec) : httpHandler :=
  mkHandler own cfg {[ "2.0" := v2 ]}.

Definition handlerConn_Write (c : handlerConn) (b : string) : M (nat * error) :=
  resp_Write b ;; mret (String.length b, None).

Definition handlerConn_LocalAddr (c : handlerConn) : string := Host (requ c).
Definition handlerConn_RemoteAddr (c : handlerConn) : string := RemoteAddr (requ c).
Definition handlerConn_SetDeadline (c : handlerConn) (t : Z) : error := None.
Definition handlerConn_SetReadDeadline (c : handlerConn) (t : Z) : error := None.
Definition handlerConn_SetWriteDeadline (c : handlerConn) (t : Z) : error := None.

(** [chunkedACKWriter]; its flusher is the response. *)
Record chunkedACKWriter : Type := mkChunked {
  w : ACKWriter;
}.

Definition chunkedACKWriter_HasKeepalive (c : chunkedACKWriter) : bool :=
  HasKeepalive (w c).

Definition chunkedACKWriter_Keepalive (c : chunkedACKWriter) (n : Z) : M error :=
  err ← Internal.Keepalive (w c) n;
  (if bool_decide (err ≠ None) then resp_Flush else mret tt) ;;
  mret err.

Definition chunkedACKWriter_ACK (c : chunkedACKWriter) (n : Z) : M error :=
  ACK (w c) n.

(** [&chunkedACKWriter{...}] as an [internal.ACKWriter]. *)
Definition chunked (c : chunkedACKWriter) : ACKWriter :=
  mkACKWriter (chunkedACKWriter_HasKeepalive c)
              (chunkedACKWriter_Keepalive c)
              (chunkedACKWriter_ACK c).

(** The keepalive loop of [serveBulk]: the timer goes off [k] more times
    before the gate closes.  [false] is the [return] on a failed
    keepalive. *)
Fixpoint keepalive_loop (ljWriter : ACKWriter) (batch : Batch) (k : nat) : M bool :=
  match k with
  | 0 => Await batch ;; mret true                 (* case <-batch.Await() *)
  | S k =>                                        (* case <-time.After(...) *)
      err ← Internal.Keepalive ljWriter 0;
      if bool_decide (err ≠ None) then mret false
      else keepalive_loop ljWriter batch k
  end.

Definition service_unavailable (err : string) : M unit :=
  resp_WriteHeader 503 ;;
  resp_Header_Add "Content-Type" "text/plain" ;;   (* "Content-type", canonical *)
  resp_Write err.

Definition serveBulk (h : httpHandler) (requ : Request) : M unit :=
  let version := Header_Get (ReqHeader requ) "X-Lumberjack-Version" in
  if bool_decide (version = "") then resp_WriteHeader 400
  else
    match versions h !! version with
    | None => resp_WriteHeader 400
    | Some handler =>
      let conn := mkConn requ in
      modify (emit (ECodec version)) ;;
      r ← handler conn;
      match r with
      | inl err => service_unavailable err
      | inr (ljReader, ljWriter) =>
        fl ← gets (λ w, is_flusher (resp w));   (* resp.(http.Flusher) *)
        let '(hasKeepalive, ljWriter) :=
          (if bool_decide (0 < keepalive (opts h))%Z && HasKeepalive ljWriter
           then if fl : bool then (true, chunked (mkChunked ljWriter))
                else (false, ljWriter)
           else (false, ljWriter)) : bool * ACKWriter in
        modify (emit EReadBatch) ;;
        rb ← ReadBatch ljReader;
        match rb with
        | inl err => service_unavailable err
        | inr batch =>
          let N := Z.of_nat (length (Events batch)) in
          ch_send batch ;;
          resp_Header_Add "Content-Type" "application/lumberjack" ;;
          resp_Header_Add "X-Lumberjack-Version" version ;;
          if hasKeepalive then
            k ← gets ticks;
            hasACK ← keepalive_loop ljWriter batch k;
            if hasACK : bool then ACK ljWriter N ;; mret tt else (mret tt : M unit)
          else
            Await batch ;;
            ACK ljWriter N ;; mret tt
        end
      end
    end.

Definition ServeHTTP (h : httpHandler) (requ : Request) : M unit :=
  if bool_decide (Method requ = "HEAD") then resp_WriteHeader 200
  else if bool_decide (Method requ = "POST") then serveBulk h requ
  else resp_WriteHeader 405.

(** Modelled from the spec: [v2.MakeIOHandler] and the codec it returns are
    not among the sources.  Its acknowledgment-writer writes "a zero-length
    still-alive acknowledgment frame" for a keepalive and "the final
    acknowledgment frame carrying the full event count" on the connection;
    its batch-reader decodes "exactly one Batch per request", here the
    events [evts]. *)
Definition be32 (n : Z) : string :=
  let byte := λ k, String (Ascii.ascii_of_N (Z.to_N ((n / 256 ^ k) mod 256))) "" in
  byte 3%Z +:+ byte 2%Z +:+ byte 1%Z +:+ byte 0%Z.
Definition ack_frame (n : Z) : string := "2A" +:+ be32 n.
Definition v2_ACKWriter (c : handlerConn) : ACKWriter :=
  mkACKWriter true
    (λ n, handlerConn_Write c (ack_frame n) ;; mret None)
    (λ n, handlerConn_Write c (ack_frame n) ;; mret None).
Definition v2_BatchReader (evts : list value) : BatchReader :=
  mkBatchReader (λ w,
    match NewBatch evts (set_body_reads (S (body_reads w)) w) with
    | Done b w' => Done (inr b) w'
    | Parked w' => Parked w'
    | Panicked w' => Panicked w'
    end).
Definition v2_MakeIOHandler (evts : list value) : codec :=
  λ c, mret (inr (v2_BatchReader evts, v2_ACKWriter c)).

End Http.

(** ** client/v2/http.go: the single-shot HTTP push client *)

Module V2.

Inductive io_error : Type :=
| io_EOF
| io_other (msg : string).

#[global] Instance io_error_eq_dec : EqDecision io_error.
Proof. solve_decision. Defined.

(** An [http.Response]: the status, and the body still to be read
    ([eof_with_data]: the reader reports the end together with the last
    bytes, as [io.Reader] allows). *)
Record Response : Type := mkResponse {
  StatusCode : Z;
  Status : string;
  body : string;
  eof_with_data : bool;
  body_closed : bool;
}.

(** The [http.Request] that [Push] hands to [http.Client.Do]. *)
Record HttpRequest : Type := mkHttpRequest {
  req_method : string;
  req_url : string;
  req_header : Header;
  req_body : string;
  Cancel : bool;                 (* requ.Cancel is set *)
}.

(** What a round trip does: the answer of [Do], and what it left unread of
    the buffer the request body reads from. *)
Record RoundTrip : Type := mkRoundTrip {
  answer : string + Response;
  unread : string;
}.

(** [http.Client], with the transport as what it does to a request. *)
Record http_Client : Type := mkClient {
  Transport : HttpRequest → RoundTrip;
  Timeout : Z;
}.

Record httpConn : Type := mkConn {
  http : http_Client;
  url : string;
  username : string;
  password : string;
  buf : string;                  (* the content of the bytes.Buffer *)
  resp : option Response;
  canceler : nat;                (* signals waiting in the channel of capacity 1 *)
}.

(** The connection, and the requests that have gone out through
    [http.Client.Do], oldest first. *)
Definition C (A : Type) : Type := httpConn * list HttpRequest → A * (httpConn * list HttpRequest).

#[global] Instance C_ret : MRet C := λ A a s, (a, s).
#[global] Instance C_bind : MBind C := λ A B f m s, let '(a, s') := m s in f a s'.

Definition get_conn : C httpConn := λ s, (s.1, s).
Definition put_conn (c : httpConn) : C unit := λ s, (tt, (c, s.2)).

Definition set_buf (b : string) (c : httpConn) : httpConn :=
  mkConn (http c) (url c) (username c) (password c) b (resp c) (canceler c).
Definition set_resp (r : option Response) (c : httpConn) : httpConn :=
  mkConn (http c) (url c) (username c) (password c) (buf c) r (canceler c).

Definition Reset : C unit :=
  c ← get_conn; put_conn (set_buf "" c).

Definition Write (b : string) : C (nat * error) :=
  c ← get_conn; put_conn (set_buf (buf c +:+ b) c) ;; mret (String.length b, None).

(** [resp.Body.Read(b)] with [len(b) = k]. *)
Definition Body_Read (k : nat) (r : Response) : string * option io_error * Response :=
  match body r with
  | EmptyString => ("", Some io_EOF, r)
  | b =>
      let data := String.substring 0 k b in
      let rest := String.substring k (String.length b - k) b in
      let err := if bool_decide (rest = "") && eof_with_data r then Some io_EOF else None in
      (data, err, mkResponse (StatusCode r) (Status r) rest (eof_with_data r) (body_closed r))
  end.

Definition Read (k : nat) : C (string * option io_error) :=
  c ← get_conn;
  match resp c with
  | None => mret ("", Some (io_other "No HTTP Response"))
  | Some r =>
      let '(data, err, r) := Body_Read k r in
      if bool_decide (err = Some io_EOF)
      then put_conn (set_resp None c) ;; mret (data, None)
      else put_conn (set_resp (Some r) c) ;; mret (data, err)
  end.

(** [Close]: a send on the canceler, which waits ([None]) when a signal
    is already there. *)
Definition Close (c : httpConn) : option (error * httpConn) :=
  if bool_decide (canceler c < 1)
  then Some (None, mkConn (http c) (url c) (username c) (password c) (buf c) (resp c)
                          (S (canceler c)))
  else None.

Definition LocalAddr (c : httpConn) : string := "local".
Definition RemoteAddr (c : httpConn) : string := url c.
Definition SetDeadline (c : httpConn) (t : Z) : error := None.
Definition SetReadDeadline (c : httpConn) (t : Z) : error := None.
Definition SetWriteDeadline (c : httpConn) (t : Z) : error := None.

Definition Header_Set (h : Header) (key v : string) : Header := <[key := [v]]> h.

(** A computation that only reads from the connection: it is done, or it
    asks for up to [k] bytes and goes on with what [Read] gave. *)
Inductive reading (A : Type) : Type :=
| RDone (a : A)
| RRead (k : nat) (cont : string * option io_error → reading A).
Arguments RDone {A} a.
Arguments RRead {A} k cont.

Fixpoint run_reading {A} (r : reading A) : C A :=
  match r with
  | RDone a => mret a
  | RRead k cont => λ s, let '(x, s') := Read k s in run_reading (cont x) s'
  end.

Section Client.

(** From the rest of the package and from net/http:
    - [url_error]: the error of [http.NewRequest] on a URL it cannot parse;
    - [basicAuth]: the value [SetBasicAuth] puts in the Authorization header;
    - [Option], [options_timeout], [applyOptions]: the client options;
    - [Client], [NewWithConn]: the lumberjack client on a connection;
    - [Client_Send]: the writes [Client.Send] makes on the connection for
      a batch, and what it returns;
    - [Client_AwaitACK]: [Client.AwaitACK], which reads the acknowledgment
      from the connection. *)
Context {Option options Client : Type}.
Variable url_error : string → error.
Variable basicAuth : string → string → string.
Variable options_timeout : options → Z.
Variable applyOptions : list Option → string + options.
Variable NewWithConn : httpConn → list Option → string + Client.
Variable Client_Send : Client → list value → list string * error.
Variable Client_AwaitACK : Client → Z → reading (Z * error).

Record HttpClient : Type := mkHttpClient {
  conn : httpConn;
  client : Client;
}.

Definition NewHTTPClient (url : string) (username password : string)
    (transp : HttpRequest → RoundTrip) (opts : list Option) : string + HttpClient :=
  match applyOptions opts with
  | inl err => inl err
  | inr o =>
      let conn := mkConn (mkClient transp (options_timeout o)) url "" "" "" None 0 in
      match NewWithConn conn opts with
      | inl err => inl err
      | inr client => inr (mkHttpClient conn client)
      end
  end.

(** [http.NewRequest("POST", url, buf)]. *)
Definition NewRequest (method url body : string) : string + HttpRequest :=
  match url_error url with
  | Some err => inl err
  | None => inr (mkHttpRequest method url ∅ body false)
  end.

Definition SetBasicAuth (r : HttpRequest) (username password : string) : HttpRequest :=
  mkHttpRequest (req_method r) (req_url r)
    (Header_Set (req_header r) "Authorization" ("Basic " +:+ basicAuth username password))
    (req_body r) (Cancel r).

Definition Request_Header_Add (key v : string) (r : HttpRequest) : HttpRequest :=
  mkHttpRequest (req_method r) (req_url r) (Header_Add (req_header r) key v)
    (req_body r) (Cancel r).

(** [c.http.Do(requ)]. *)
Definition Do (requ : HttpRequest) : C (string + Response) := λ s,
  let rt := Transport (http s.1) requ in
  (answer rt, (set_buf (unread rt) s.1, s.2 ++ [requ])).

Definition Push : C error :=
  c ← get_conn;
  match NewRequest "POST" (url c) (buf c) with
  | inl err => mret (Some err)
  | inr requ =>
      let requ := mkHttpRequest (req_method requ) (req_url requ) (req_header requ)
                                (req_body requ) true in
      let requ := if bool_decide (username c ≠ "") && bool_decide (password c ≠ "")
                  then SetBasicAuth requ (username c) (password c)
                  else requ in
      let requ := Request_Header_Add "Content-Type" "application/lumberjack" requ in
      let requ := Request_Header_Add "Accept" "application/lumberjack" requ in
      let requ := Request_Header_Add "X-Lumberjack-Version" "2.0" requ in
      r ← Do requ;
      match r with
      | inl err => mret (Some err)
      | inr resp =>
          if bool_decide (StatusCode resp ≠ 200%Z)
          then mret (Some ("HTTP endpoint returned status '" +:+ Status resp +:+ "'"))
          else c ← get_conn; put_conn (set_resp (Some resp) c) ;; mret None
      end
  end.

(** [c.client.Send(data)]: the client writes the encoded batch on the
    connection. *)
Fixpoint write_all (l : list string) : C unit :=
  match l with
  | [] => mret tt
  | b :: l => Write b ;; write_all l
  end.

Definition client_Send (cl : Client) (data : list value) : C error :=
  let '(writes, err) := Client_Send cl data in
  write_all writes ;; mret err.

Definition uint32 (n : Z) : Z := (n mod 2 ^ 32)%Z.

Definition Send (c : Client) (data : list value) : C (Z * error) :=
  Reset ;;
  err ← client_Send c data;
  if bool_decide (err ≠ None) then mret (0%Z, err)
  else
    err ← Push;
    if bool_decide (err ≠ None) then mret (0%Z, err)
    else
      '(n, err) ← run_reading (Client_AwaitACK c (uint32 (Z.of_nat (length data))));
      mret (n, err).

(** [HttpClient.Send]: [Send] on the connection the client holds. *)
Definition HttpClient_Send (hc : HttpClient) (data : list value)
    (out : list HttpRequest) : (Z * error) * (HttpClient * list HttpRequest) :=
  let '(r, (c, out)) := Send (client hc) data (conn hc, out) in
  (r, (mkHttpClient c (client hc), out)).

End Client.

End V2.

(** ** Sample requests *)

(** The request of a client that speaks version 2.0, and the handler with
    a keepalive interval of 100ms. *)
Definition v2_request : Request :=
  mkRequest "POST" {[ "X-Lumberjack-Version" := ["2.0"] ]} (mkBody [] (inr [])) "host" "peer".
Definition keepalive_handler : Http.httpHandler :=
  Http.newHandler true (Http.mkOptions (30 * Http.second) 100000000)
    (Http.v2_MakeIOHandler [VStr "a"; VStr "b"]).

Definition one_doc (n : Z) : list dec_item :=
  [DecMap (Some {[ "index" := VMap (Some ∅) ]}); DecMap (Some {[ "n" := VNum n ]})].
Definition bulk_request (l : list dec_item) : Request :=
  mkRequest "POST" ∅ (mkBody l (inl "")) "host" "peer".


(** ** Vocabulary of the properties *)

(** The event the decode loop appends for a metadata/source pair:
    [evt["@metadata"] = meta]. *)
Definition with_metadata (meta : gomap) (m : gmap string value) : value :=
  VMap (Some (<["@metadata" := VMap meta]> m)).

(** The pairs the decode loop accepts before it stops. *)
Fixpoint accepted (dec : list dec_item) : list (gomap * gmap string value) :=
  match dec with
  | DecMap meta :: DecMap (Some m) :: dec => (meta, m) :: accepted dec
  | _ => []
  end.

Definition accepted_events (dec : list dec_item) : list value :=
  map (λ p, with_metadata p.1 p.2) (accepted dec).

(** The decode loop ends at the end of the input or on a decode error (and
    not in the panic on a source line that is JSON null). *)
Fixpoint loop_returns (dec : list dec_item) : Prop :=
  match dec with
  | DecMap _ :: DecMap None :: _ => False
  | DecMap _ :: DecMap (Some _) :: dec => loop_returns dec
  | _ => True
  end.

(** What the decoder yields on well-formed metadata/source line pairs. *)
Definition pairs_docs (pairs : list (gmap string value * gmap string value)) : list dec_item :=
  concat (map (λ p, [DecMap (Some p.1); DecMap (Some p.2)]) pairs).

Definition pair_event (p : gmap string value * gmap string value) : value :=
  with_metadata (Some p.1) p.2.

(** [k] status entries, each with a comma in front. *)
Fixpoint more_items (k : nat) : string :=
  match k with
  | 0 => ""
  | S k => ("," +:+ Es.created) +:+ more_items k
  end.

(** [k] status entries as they follow one another in the array; [first]:
    none has been written before. *)
Definition items (first : bool) (k : nat) : string :=
  match k with
  | 0 => ""
  | S k' => if first then Es.created +:+ more_items k' else more_items k
  end.

(** The content of the response body. *)
Definition out (w : world) : string := body_text (written (resp w)).

(** What a write on the [io.Writer] of [serveBulk] does to the response. *)
Definition wput (wr : Es.writer) (s : string) : response → response :=
  match wr with
  | Es.WResp => put_chunk (Plain s)
  | Es.WGzip => Es.gz_Write s
  end.

(** *** JSON texts (RFC 8259), as far as the handler writes them *)

Fixpoint all_chars (p : Ascii.ascii → bool) (s : string) : bool :=
  match s with
  | EmptyString => true
  | String a s => p a && all_chars p s
  end.

(** A character that stands for itself in a JSON string. *)
Definition plain_char (a : Ascii.ascii) : bool :=
  let n := Ascii.nat_of_ascii a in
  bool_decide (32 ≤ n) && bool_decide (n < 127) &&
  negb (bool_decide (n = 34)) && negb (bool_decide (n = 92)).

Definition digit_char (a : Ascii.ascii) : bool :=
  let n := Ascii.nat_of_ascii a in bool_decide (48 ≤ n) && bool_decide (n ≤ 57).

(** A natural number without a leading zero. *)
Definition json_int (s : string) : bool :=
  match s with
  | EmptyString => false
  | String a rest =>
      if bool_decide (Ascii.nat_of_ascii a = 48) then bool_decide (rest = "")
      else all_chars digit_char s
  end.

Inductive json_ws : string → Prop :=
| ws_nil : json_ws ""
| ws_space s : json_ws s → json_ws (" " +:+ s).

Inductive json_value : string → Prop :=
| json_number s : json_int s = true → json_value s
| json_string s : all_chars plain_char s = true → json_value (quoted s)
| json_array_empty ws : json_ws ws → json_value ("[" +:+ ws +:+ "]")
| json_array es : json_elements es → json_value ("[" +:+ es +:+ "]")
| json_object_empty ws : json_ws ws → json_value ("{" +:+ ws +:+ "}")
| json_object ms : json_members ms → json_value ("{" +:+ ms +:+ "}")
with json_element : string → Prop :=
| json_elem ws1 v ws2 :
    json_ws ws1 → json_value v → json_ws ws2 → json_element (ws1 +:+ v +:+ ws2)
with json_elements : string → Prop :=
| json_elements_one e : json_element e → json_elements e
| json_elements_cons e es :
    json_element e → json_elements es → json_elements (e +:+ "," +:+ es)
with json_member : string → Prop :=
| json_memb ws1 k ws2 e :
    json_ws ws1 → all_chars plain_char k = true → json_ws ws2 → json_element e →
    json_member (ws1 +:+ quoted k +:+ ws2 +:+ ":" +:+ e)
with json_members : string → Prop :=
| json_members_one m : json_member m → json_members m
| json_members_cons m ms :
    json_member m → json_members ms → json_members (m +:+ "," +:+ ms).

(** A JSON text is an element. *)
Definition json_text (s : string) : Prop := json_element s.

(** Five metadata/source line pairs. *)
Definition five_pairs : list (gmap string value * gmap string value) :=
  map (λ n, ({[ "index" := VMap (Some ∅) ]}, {[ "n" := VNum n ]})) [1; 2; 3; 4; 5]%Z.

Definition gzip_bulk_request (l : list dec_item) : Request :=
  mkRequest "POST" {[ "Accept-Encoding" := ["gzip"]; "Content-Encoding" := ["gzip"] ]}
    (mkBody [] (inr l)) "host" "peer".

(** What a run of the decode loop that returns leaves behind: the groups
    it sent, in order, and the working group. *)
Definition decoded (h : Es.httpHandler) (dec : list dec_item)
    (ev : slice value) (ms : slice gomap)
    (ev' : slice value) (ms' : slice gomap) (infos : list info) : Prop :=
  concat (map (λ i, Events (batch i)) infos) ++ elems ev' = elems ev ++ accepted_events dec ∧
  concat (map meta infos) ++ elems ms' = elems ms ++ map fst (accepted dec) ∧
  (len ev = len ms → len ev' = len ms') ∧
  (cap ev = Z.to_nat (Es.split h) → len ev < cap ev →
     cap ev' = cap ev ∧ len ev' < cap ev' ∧
     Forall (λ i, length (Events (batch i)) = cap ev) infos).

(** The sizes of the groups: full ones, then what is left. *)
Definition sizes_ok (s n : nat) (l : list nat) : Prop :=
  ∃ full r, l = replicate full s ++ (if bool_decide (r = 0) then [] else [r]) ∧
            full * s + r = n ∧ r < s.

(** *** The decode loop and the drain task side by side *)

(** The two goroutines of [serveBulk] around the channel [batches]: the
    groups the handler has still to send, the groups in the channel,
    whether the handler has closed it, the [first] of the drain task, and
    the world the drain task acts on. *)
Record pipeline : Type := mkPipeline {
  to_send : list info;
  in_channel : list info;
  closed : bool;
  drain_first : bool;
  drain_world : world;
}.

(** A step of one of the two: the handler sends a group when the channel
    (capacity 2) has room, or closes the channel after the last one; the
    drain task takes the oldest group and runs its loop body on it. *)
Inductive pipe_step (h : Es.httpHandler) (wr : Es.writer) : pipeline → pipeline → Prop :=
| step_send i rest q f w :
    length q < 2 →
    pipe_step h wr (mkPipeline (i :: rest) q false f w) (mkPipeline rest (q ++ [i]) false f w)
| step_close q f w :
    pipe_step h wr (mkPipeline [] q false f w) (mkPipeline [] q true f w)
| step_drain ts i q cl f f' w w' :
    Es.drain_one h wr f i w = Done f' w' →
    pipe_step h wr (mkPipeline ts (i :: q) cl f w) (mkPipeline ts q cl f' w').

(** *** The push client *)

(** The bytes of a sequence of writes. *)
Definition joined (l : list string) : string := foldr String.append "" l.

(** The three headers of a push. *)
Definition lumberjack_headers (h : Header) : Prop :=
  h !! "Content-Type" = Some ["application/lumberjack"] ∧
  h !! "Accept" = Some ["application/lumberjack"] ∧
  h !! "X-Lumberjack-Version" = Some ["2.0"].

(** The error of [Push] on a response that is not 200. *)
Definition status_error (r : V2.Response) : string :=
  "HTTP endpoint returned status '" +:+ V2.Status r +:+ "'".

(** The connection stores no credentials. *)
Definition no_credentials (c : V2.httpConn) : Prop :=
  V2.username c = "" ∧ V2.password c = "".

(** The request [Push] builds from the connection. *)
Definition push_request (basicAuth : string → string → string) (c : V2.httpConn)
    : V2.HttpRequest :=
  let requ := V2.mkHttpRequest "POST" (V2.url c) ∅ (V2.buf c) true in
  let requ := if bool_decide (V2.username c ≠ "") && bool_decide (V2.password c ≠ "")
              then V2.SetBasicAuth basicAuth requ (V2.username c) (V2.password c)
              else requ in
  V2.Request_Header_Add "X-Lumberjack-Version" "2.0"
    (V2.Request_Header_Add "Accept" "application/lumberjack"
       (V2.Request_Header_Add "Content-Type" "application/lumberjack" requ)).

(** A server that acknowledges the batch encoded as "A" with a chunked
    response and answers anything else with 500; a client that encodes a
    batch of one event as "A" and any other as "B"; the acknowledgment is
    read as six bytes; [url.Parse] refuses the URL whose host has an open
    bracket. *)
Definition sample_transport (r : V2.HttpRequest) : V2.RoundTrip :=
  if bool_decide (V2.req_body r = "A")
  then V2.mkRoundTrip (inr (V2.mkResponse 200 "200 OK" (Http.ack_frame 1) false false)) ""
  else V2.mkRoundTrip (inr (V2.mkResponse 500 "500 Internal Server Error" "" false false)) "".
Definition sample_encode (cl : unit) (data : list value) : list string * error :=
  match data with
  | [_] => (["A"], None)
  | _ => (["B"], None)
  end.
Definition sample_await (cl : unit) (n : Z) : V2.reading (Z * error) :=
  V2.RRead 6 (λ _, V2.RDone (n, None)).
Definition sample_url_error (u : string) : error :=
  if bool_decide (u = "http://[::1")
  then Some ("parse " +:+ quoted "http://[::1" +:+ ": missing ']' in host")
  else None.
Definition sample_basicAuth (u p : string) : string := u +:+ ":" +:+ p.
Definition sample_conn (url : string) : V2.httpConn :=
  V2.mkConn (V2.mkClient sample_transport 0) url "" "" "" None 0.
Definition sample_Send : list value → V2.C (Z * error) :=
  V2.Send sample_url_error sample_basicAuth sample_encode sample_await tt.
Definition sample_NewHTTPClient (user pass : string) : string + V2.HttpClient :=
  V2.NewHTTPClient (Option := unit) (λ _ : unit, 30 * Http.second)%Z (λ _, inr tt) (λ _ _, inr tt)
    "http://localhost:5044" user pass sample_transport [].

(** ** Tactics *)

(** Unfolding the monad of handlers. *)
Ltac run :=
  unfold mbind, M_bind, mret, M_ret, modify, gets, panic; simpl.

(** Unfolding the monad of the client. *)
Ltac crun :=
  unfold mbind, V2.C_bind, mret, V2.C_ret, V2.get_conn, V2.put_conn; simpl.


(** ** cmd/tst-lj: the rate limiter of the test server *)

Module TstLj.

(** Conversions between [int], [uint64] and [time.Duration] (an [int64]);
    [int] has 64 bits. *)
Definition uint64 (n : Z) : Z := (n mod 2 ^ 64)%Z.
Definition int64 (n : Z) : Z := ((n + 2 ^ 63) mod 2 ^ 64 - 2 ^ 63)%Z.

(** What [newRateLimiter] sets up: a ticker of period [interval] (in
    nanoseconds) that feeds a channel holding up to [burst] ticks. *)
Record rateLimiter : Type := mkRateLimiter {
  interval : Z;
  burst : nat;
}.

(** [newRateLimiter]; [None] is a panic: the integer division by zero,
    [time.NewTicker] on an interval that is not positive, or [make] of a
    channel of negative size (the memory for the channel is taken to be
    there). *)
Definition newRateLimiter (limit burstLimit unit : Z) : option rateLimiter :=
  if bool_decide (uint64 limit = 0%Z) then None
  else
    let interval := int64 (uint64 unit / uint64 limit) in
    if bool_decide (interval ≤ 0)%Z then None
    else if bool_decide (burstLimit < 0)%Z then None
    else Some (mkRateLimiter interval (Z.to_nat burstLimit)).

(** The call in [main], made when the rate given is positive: the burst
    limit is twice the rate (computed in [int]) and the unit is
    [time.Second]; [None] is "no rate limit". *)
Definition main_rateLimiter (limit : Z) : option (option rateLimiter) :=
  if bool_decide (0 < limit)%Z
  then Some (newRateLimiter limit (int64 (limit * 2)) Http.second)
  else None.

End TstLj.

(** ** More vocabulary *)

(** The world a run ends in. *)
Definition world_of {A} (o : outcome A) : world :=
  match o with Done _ w | Parked w | Panicked w => w end.

(** [m] started where [P] holds ends, however it ends, where [Q] holds. *)
Definition ends_in {A} (P : world → Prop) (m : M A) (Q : world → Prop) : Prop :=
  ∀ w, P w → Q (world_of (m w)).

(** The status line [code] has gone out with the header [hd]. *)
Definition status_sent (code : nat) (hd : Header) (w : world) : Prop :=
  status (resp w) = Some code ∧ sent_header (resp w) = hd.

(** The request asks for a gzip response. *)
Definition accepts_gzip (requ : Request) : bool :=
  strings_Contains (Header_Get (ReqHeader requ) "Accept-Encoding") "gzip".

(** The options of [server/http] that carry a duration. *)
Inductive setting : Type :=
| SetTimeout (to : Z)
| SetKeepalive (kl : Z).

Definition setting_option (s : setting) : Http.Option :=
  match s with
  | SetTimeout to => Http.Timeout to
  | SetKeepalive kl => Http.Keepalive kl
  end.

Definition setting_value (s : setting) : Z :=
  match s with SetTimeout v | SetKeepalive v => v end.

Definition setting_error (s : setting) : string :=
  match s with
  | SetTimeout _ => "timeouts must not be negative"
  | SetKeepalive _ => "keepalive must not be negative"
  end.

(** The options after a setting that is accepted. *)
Definition settle (o : Http.options) (s : setting) : Http.options :=
  match s with
  | SetTimeout to => Http.mkOptions to (Http.keepalive o)
  | SetKeepalive kl => Http.mkOptions (Http.timeout o) kl
  end.

Definition default_options : Http.options :=
  Http.mkOptions (30 * Http.second) (3 * Http.second).

(** What is left to read of the response the connection has stored. *)
Definition remaining (c : V2.httpConn) : string :=
  match V2.resp c with
  | Some r => V2.body r
  | None => ""
  end.

(** Codecs for the examples: one whose construction fails, one whose
    reader fails, and one whose acknowledgment-writer has no keepalive. *)
Definition failing_codec : Http.codec := λ _, mret (inl "no codec").
Definition unreadable_codec : Http.codec :=
  λ c, mret (inr (Internal.mkBatchReader (mret (inl "unexpected EOF")), Http.v2_ACKWriter c)).
Definition plain_codec (evts : list value) : Http.codec :=
  λ c, mret (inr (Http.v2_BatchReader evts,
                  Internal.mkACKWriter false (λ _, mret None)
                    (Internal.ACK (Http.v2_ACKWriter c)))).
Definition sample_handler (keepalive : Z) (c : Http.codec) : Http.httpHandler :=
  Http.newHandler true (Http.mkOptions (30 * Http.second) keepalive) c.
Definition broken_pipe_codec (evts : list value) : Http.codec :=
  λ c, mret (inr (Http.v2_BatchReader evts,
                  Internal.mkACKWriter true (λ _, mret (Some "broken pipe"))
                    (Internal.ACK (Http.v2_ACKWriter c)))).

(** What a keepalive of the version 2 acknowledgment-writer does to the
    world: the frame for zero events is written on the response. *)
Definition keepalive_written (w : world) : world :=
  emit (EWrite (Http.ack_frame 0)) (set_resp (put_chunk (Plain (Http.ack_frame 0))) w).

(** The ways the decode loop of [es.serveBulk] stops before the end of
    the input: the metadata line does not decode, the source line does not
    decode, or the input ends after a metadata line. *)
Inductive stops_decoding : list dec_item → Prop :=
| stop_at_metadata e rest : stops_decoding (DecErr e :: rest)
| stop_at_source mt e rest : stops_decoding (DecMap mt :: DecErr e :: rest)
| stop_without_source mt : stops_decoding [DecMap mt].

(** The run of the two goroutines of [es.serveBulk] is over: every group
    was sent and taken. *)
Definition pipeline_done (p : pipeline) : Prop :=
  to_send p = [] ∧ in_channel p = [].

(** Two groups of one event each, for the examples. *)
Definition two_groups : list info :=
  [mkInfo (mkBatch [VStr "a"] 0) [None]; mkInfo (mkBatch [VStr "b"] 1) [None]].

(** The pipeline after the drain task has taken both of [two_groups]
    from a handler that is not silent. *)
Definition two_groups_drained : pipeline :=
  mkPipeline [] [] true false
    (world_of (Es.drain_loop (Es.mkHandler false 1 true) Es.WResp true two_groups
                 (fresh_world [] 2 true (λ _, true) 0))).

(** A connection that holds the response [r]. *)
Definition conn_with (r : V2.Response) : V2.httpConn :=
  V2.set_resp (Some r) (sample_conn "http://localhost:5044").

(** [Push], then a [Read] of up to [k] bytes. *)
Definition Push_then_Read (url_error : string → error)
    (basicAuth : string → string → string) (k : nat) : V2.C (string * option V2.io_error) :=
  V2.Push url_error basicAuth ;; V2.Read k.
(** * Properties *)

(** ** Strings and bodies *)

Lemma string_app_cons a s t : String a s +:+ t = String a (s +:+ t).
Proof. reflexivity. Qed.

Lemma string_app_nil_l s : "" +:+ s = s.
Proof. reflexivity. Qed.

Lemma string_app_nil_r s : s +:+ "" = s.
Proof. induction s as [|a s IH]; [done|]. by rewrite string_app_cons, IH. Qed.

Lemma string_app_assoc s t u : (s +:+ t) +:+ u = s +:+ t +:+ u.
Proof. induction s as [|a s IH]; [done|]. by rewrite !string_app_cons, IH. Qed.

Lemma body_text_app l1 l2 : body_text (l1 ++ l2) = body_text l1 +:+ body_text l2.
Proof.
  induction l1 as [|c l1 IH]; simpl; [done|].
  by rewrite IH, string_app_assoc.
Qed.

Lemma body_text_snoc l c : body_text (l ++ [c]) = body_text l +:+ chunk_text c.
Proof. rewrite body_text_app. simpl. by rewrite string_app_nil_r. Qed.

Lemma body_text_gz_put s l : body_text (Es.gz_put s l) = body_text l +:+ s.
Proof.
  induction l as [|c l IH]; simpl.
  - by rewrite string_app_nil_r.
  - destruct c as [x|x]; simpl.
    + by rewrite IH, string_app_assoc.
    + destruct l as [|c' l]; simpl in *.
      * rewrite !string_app_nil_r. reflexivity.
      * rewrite IH, !string_app_assoc. reflexivity.
Qed.

Lemma Header_Get_absent (h : Header) key : h !! key = None → Header_Get h key = "".
Proof. unfold Header_Get. by intros ->. Qed.

(** ** Requests that are turned away *)

(** C8: a request whose method is neither HEAD nor POST gets
    405 Method Not Allowed from the ES-bulk server and from the
    version-dispatching server alike; the body is not read, no batch is
    made and the ingestion channel is as it was. *)
Theorem unknown_method_not_allowed
    (hE : Es.httpHandler) (hH : Http.httpHandler) (requ : Request)
    (q : list Batch) (n : nat) (fl : bool) (c : nat → bool) (k : nat) :
  Method requ ≠ "HEAD" → Method requ ≠ "POST" →
  ∃ w',
    Es.ServeHTTP hE requ (fresh_world q n fl c k) = Done tt w' ∧
    Http.ServeHTTP hH requ (fresh_world q n fl c k) = Done tt w' ∧
    status (resp w') = Some 405 ∧
    written (resp w') = [] ∧
    body_reads w' = 0 ∧
    next_gate w' = n ∧
    batches w' = [] ∧
    ch w' = q ∧
    log w' = [EWriteHeader 405].
Proof.
  intros Hhead Hpost.
  eexists. unfold Es.ServeHTTP, Http.ServeHTTP.
  rewrite !bool_decide_eq_false_2 by done.
  repeat split; reflexivity.
Qed.

Lemma unknown_method_not_allowed_witness :
  ∃ w',
    Es.ServeHTTP (Es.mkHandler false 2 true)
      (mkRequest "PUT" ∅ (mkBody [] (inr [])) "host" "peer")
      (fresh_world [] 0 true (λ _, true) 0) = Done tt w' ∧
    Http.ServeHTTP (Http.mkHandler true (Http.mkOptions 0 0) ∅)
      (mkRequest "PUT" ∅ (mkBody [] (inr [])) "host" "peer")
      (fresh_world [] 0 true (λ _, true) 0) = Done tt w' ∧
    status (resp w') = Some 405 ∧
    written (resp w') = [] ∧
    body_reads w' = 0 ∧
    next_gate w' = 0 ∧
    batches w' = [] ∧
    ch w' = [] ∧
    log w' = [EWriteHeader 405].
Proof.
  apply (unknown_method_not_allowed (Es.mkHandler false 2 true)
           (Http.mkHandler true (Http.mkOptions 0 0) ∅)
           (mkRequest "PUT" ∅ (mkBody [] (inr [])) "host" "peer")
           [] 0 true (λ _, true) 0); simpl; discriminate.
Defined.

(** C4: a POST to the version-dispatching handler whose
    X-Lumberjack-Version header is absent, or names a version that is not
    in the table, gets 400 Bad Request and nothing else happens: no codec
    constructor is called, no batch is read, and the ingestion channel is
    as it was. *)
Theorem bad_version_rejected
    (h : Http.httpHandler) (requ : Request)
    (q : list Batch) (n : nat) (fl : bool) (c : nat → bool) (k : nat) :
  Method requ = "POST" →
  ReqHeader requ !! "X-Lumberjack-Version" = None ∨
    Http.versions h !! Header_Get (ReqHeader requ) "X-Lumberjack-Version" = None →
  ∃ w',
    Http.ServeHTTP h requ (fresh_world q n fl c k) = Done tt w' ∧
    status (resp w') = Some 400 ∧
    written (resp w') = [] ∧
    body_reads w' = 0 ∧
    next_gate w' = n ∧
    ch w' = q ∧
    log w' = [EWriteHeader 400].
Proof.
  intros Hpost Hbad.
  eexists. unfold Http.ServeHTTP.
  rewrite Hpost. change (bool_decide ("POST" = "HEAD")) with false.
  change (bool_decide ("POST" = "POST")) with true. cbv iota.
  unfold Http.serveBulk. cbv zeta.
  destruct Hbad as [Habs|Hunk].
  - rewrite (Header_Get_absent _ _ Habs). repeat split; reflexivity.
  - case_bool_decide; [|rewrite Hunk]; repeat split; reflexivity.
Qed.

Lemma bad_version_rejected_witness :
  ∃ w',
    Http.ServeHTTP (Http.newHandler true (Http.mkOptions 0 0) (Http.v2_MakeIOHandler []))
      (mkRequest "POST" {[ "X-Lumberjack-Version" := ["1.0"] ]} (mkBody [] (inr [])) "host" "peer")
      (fresh_world [] 0 true (λ _, true) 0) = Done tt w' ∧
    status (resp w') = Some 400 ∧
    written (resp w') = [] ∧
    body_reads w' = 0 ∧
    next_gate w' = 0 ∧
    ch w' = [] ∧
    log w' = [EWriteHeader 400].
Proof.
  apply (bad_version_rejected
           (Http.newHandler true (Http.mkOptions 0 0) (Http.v2_MakeIOHandler []))
           (mkRequest "POST" {[ "X-Lumberjack-Version" := ["1.0"] ]} (mkBody [] (inr [])) "host" "peer")
           [] 0 true (λ _, true) 0).
  - reflexivity.
  - right. vm_compute. reflexivity.
Defined.

(** C9: an ES-bulk POST that declares Content-Encoding: gzip and whose
    body [gzip.NewReader] refuses gets 400 Bad Request with the error
    text as its body; the handler returns before the items array is
    opened, no batch is made and nothing is put on the ingestion
    channel. *)
Theorem gzip_reader_failure_rejected
    (h : Es.httpHandler) (requ : Request) (err : string)
    (q : list Batch) (n : nat) (fl : bool) (c : nat → bool) (k : nat) :
  Method requ = "POST" →
  Header_Get (ReqHeader requ) "Content-Encoding" = "gzip" →
  gzip_docs (ReqBody requ) = inl err →
  ∃ w',
    Es.ServeHTTP h requ (fresh_world q n fl c k) = Done tt w' ∧
    status (resp w') = Some 400 ∧
    body_text (written (resp w')) = err ∧
    log w' = [EWriteHeader 400; EWrite err] ∧
    next_gate w' = n ∧
    batches w' = [] ∧
    ch w' = q.
Proof.
  intros Hpost Hgz Herr.
  unfold Es.ServeHTTP. rewrite Hpost.
  change (bool_decide ("POST" = "HEAD")) with false.
  change (bool_decide ("POST" = "POST")) with true. cbv iota.
  unfold Es.serveBulk, Es.serveBulk_body, Es.open_reader, Es.body_docs.
  rewrite Hgz, Herr.
  change (bool_decide ("gzip" = "gzip")) with true. cbv iota.
  destruct (strings_Contains _ _); eexists; (split; [reflexivity|]); simpl;
    rewrite ?string_app_nil_r; repeat split; reflexivity.
Qed.

Lemma gzip_reader_failure_rejected_witness :
  ∃ w',
    Es.ServeHTTP (Es.mkHandler false 2 true)
      (mkRequest "POST" {[ "Content-Encoding" := ["gzip"] ]}
         (mkBody [] (inl "gzip: invalid header")) "host" "peer")
      (fresh_world [] 0 true (λ _, true) 0) = Done tt w' ∧
    status (resp w') = Some 400 ∧
    body_text (written (resp w')) = "gzip: invalid header" ∧
    log w' = [EWriteHeader 400; EWrite "gzip: invalid header"] ∧
    next_gate w' = 0 ∧
    batches w' = [] ∧
    ch w' = [].
Proof.
  apply (gzip_reader_failure_rejected (Es.mkHandler false 2 true)
           (mkRequest "POST" {[ "Content-Encoding" := ["gzip"] ]}
              (mkBody [] (inl "gzip: invalid header")) "host" "peer")
           "gzip: invalid header" [] 0 true (λ _, true) 0); reflexivity.
Defined.

(** ** Keepalive *)

(** The decorator flushes exactly when the keepalive write failed. *)
Lemma chunkedACKWriter_Keepalive_ok (c : Http.chunkedACKWriter) (n : Z) (w w' : world) :
  Internal.Keepalive (Http.w c) n w = Done None w' →
  Http.chunkedACKWriter_Keepalive c n w = Done None w'.
Proof. intros H. unfold Http.chunkedACKWriter_Keepalive. run. by rewrite H. Qed.

Lemma chunkedACKWriter_Keepalive_failed (c : Http.chunkedACKWriter) (n : Z) (w w' : world) e :
  Internal.Keepalive (Http.w c) n w = Done (Some e) w' →
  Http.chunkedACKWriter_Keepalive c n w = (resp_Flush ;; mret (Some e) : M error) w'.
Proof. intros H. unfold Http.chunkedACKWriter_Keepalive. run. by rewrite H. Qed.

(** C1: the code at the failing input.  A keepalive whose write succeeds
    leaves the frame in the response buffer: the decorator returns nil and
    has not flushed.  With an interval of 100ms and a consumer that
    completes after 350ms the timer goes off three times; the handler
    writes three keepalive frames and the acknowledgment and flushes
    none of them, so the client has seen no frame when the handler is
    done. *)
Theorem keepalive_written_but_not_flushed :
  (∃ w',
     Http.chunkedACKWriter_Keepalive
       (Http.mkChunked (Http.v2_ACKWriter (Http.mkConn v2_request))) 0
       (fresh_world [] 0 true (λ _, true) 3) = Done None w' ∧
     written (resp w') = [Plain (Http.ack_frame 0)] ∧
     seen (resp w') = 0 ∧
     log w' = [EWrite (Http.ack_frame 0)]) ∧
  (∃ w' b,
     Http.ServeHTTP keepalive_handler v2_request
       (fresh_world [] 0 true (λ _, true) 3) = Done tt w' ∧
     written (resp w') =
       [Plain (Http.ack_frame 0); Plain (Http.ack_frame 0); Plain (Http.ack_frame 0);
        Plain (Http.ack_frame 2)] ∧
     seen (resp w') = 0 ∧
     log w' =
       [ECodec "2.0"; EReadBatch; EEnqueue b;
        EWrite (Http.ack_frame 0); EWrite (Http.ack_frame 0); EWrite (Http.ack_frame 0);
        EAwait b; EWrite (Http.ack_frame 2)]).
Proof.
  split.
  - eexists. vm_compute. repeat split; reflexivity.
  - do 2 eexists. vm_compute. repeat split; reflexivity.
Qed.

(** ** The drain task of the ES-bulk handler *)

(** C2: the code at the failing input.  One event, not silent, and a
    consumer that never completes the batch: the drain task has put the
    batch on the ingestion channel and has written the status entry of the
    event, and only then waits on the gate, where it stays.  The entry is
    in the response though the gate has not been signaled. *)
Theorem status_written_before_gate_signaled :
  ∃ w' b,
    Es.ServeHTTP (Es.mkHandler false 1 true) (bulk_request (one_doc 1))
      (fresh_world [] 0 true (λ _, false) 0) = Parked w' ∧
    ch w' = [b] ∧
    completes w' (gate b) = false ∧
    body_text (written (resp w')) = Es.items_open +:+ Es.created ∧
    log w' = [EWriteHeader 200; EWrite Es.items_open; EEnqueue b; EWrite Es.created].
Proof. do 2 eexists. vm_compute. repeat split; reflexivity. Qed.


(** ** The text of the items array *)

Lemma more_items_add a b : more_items (a + b) = more_items a +:+ more_items b.
Proof.
  induction a as [|a IH]; simpl; [done|].
  by rewrite IH, !string_app_assoc.
Qed.

Lemma items_add first a b :
  items first (a + b) = items first a +:+ items (first && bool_decide (a = 0)) b.
Proof.
  destruct a as [|a]; simpl.
  - by rewrite andb_true_r.
  - rewrite andb_false_r. destruct first.
    + rewrite more_items_add, string_app_assoc.
      destruct b; simpl; [|done]. done.
    + change (("," +:+ Es.created) +:+ more_items (a + b)) with (more_items (S a + b)).
      rewrite more_items_add. destruct b; simpl; [|done].
      by rewrite string_app_nil_r.
Qed.

Lemma json_value_created : json_value Es.created.
Proof.
  change Es.created with
    ("{" +:+ ("" +:+ quoted "created" +:+ "" +:+ ":" +:+
       ("" +:+ ("{" +:+ ("" +:+ quoted "status" +:+ "" +:+ ":" +:+ (" " +:+ "200" +:+ ""))
                +:+ "}") +:+ "")) +:+ "}").
  apply json_object, json_members_one, json_memb; try constructor; try reflexivity.
  - constructor.
  - apply json_object, json_members_one, json_memb; try constructor; try reflexivity.
    + repeat constructor.
    + by apply json_number.
    + constructor.
  - constructor.
Qed.

Lemma json_element_created : json_element Es.created.
Proof.
  rewrite <- (string_app_nil_r Es.created).
  change (Es.created +:+ "") with ("" +:+ Es.created +:+ "").
  apply json_elem; [constructor | apply json_value_created | constructor].
Qed.

Lemma json_elements_items k : json_elements (items true (S k)).
Proof.
  induction k as [|k IH].
  - simpl. rewrite string_app_nil_r. apply json_elements_one, json_element_created.
  - change (items true (S (S k))) with
      (Es.created +:+ ("," +:+ Es.created) +:+ more_items k).
    rewrite string_app_assoc.
    apply json_elements_cons; [apply json_element_created | apply IH].
Qed.

(** The body of a bulk response is a JSON text, whatever the number of
    status entries. *)
Lemma json_text_items k :
  json_text (Es.items_open +:+ items true k +:+ Es.items_close).
Proof.
  unfold json_text.
  assert (Hshape : ∀ arr,
    Es.items_open +:+ arr +:+ Es.items_close =
    "" +:+ ("{" +:+ ("" +:+ quoted "items" +:+ "" +:+ ":" +:+ (" " +:+ ("[" +:+ arr +:+ "]") +:+ ""))
            +:+ "}") +:+ "").
  { intros arr. unfold Es.items_open, Es.items_close.
    rewrite !string_app_nil_l, !string_app_nil_r, !string_app_assoc.
    reflexivity. }
  rewrite Hshape.
  apply json_elem; [constructor| |constructor].
  apply json_object, json_members_one, json_memb; try constructor; try reflexivity.
  - repeat constructor.
  - destruct k as [|k].
    + apply (json_array_empty ""). constructor.
    + apply json_array, json_elements_items.
  - constructor.
Qed.

(** ** The decode loop *)

Lemma list_pair_ind {A} (P : list A → Prop) :
  P [] → (∀ x, P [x]) → (∀ x y l, P l → P (x :: y :: l)) → ∀ l, P l.
Proof.
  intros H0 H1 H2. fix IH 1.
  intros [|x [|y l]]; [exact H0 | apply H1 | apply H2, IH].
Qed.

Lemma len_append {A} (s : slice A) x : len (append s x) = S (len s).
Proof.
  unfold append, len. case_bool_decide; simpl; rewrite length_app; simpl; lia.
Qed.

Lemma elems_append {A} (s : slice A) x : elems (append s x) = elems s ++ [x].
Proof. unfold append. by case_bool_decide. Qed.

Lemma cap_append_room {A} (s : slice A) x : len s < cap s → cap (append s x) = cap s.
Proof. intros H. unfold append. by rewrite bool_decide_eq_true_2. Qed.

Lemma make_ok {A} (n : Z) (w : world) :
  (0 ≤ n)%Z → make (A := A) n w = Done (mkSlice [] (Z.to_nat n)) w.
Proof. intros H. unfold make. by rewrite bool_decide_eq_false_2 by lia. Qed.

Lemma decode_loop_returns (h : Es.httpHandler) :
  (0 ≤ Es.split h)%Z →
  ∀ dec, loop_returns dec → ∀ ev ms w,
  ∃ ev' ms' err infos n' r',
    Es.decode_loop h dec ev ms w =
      Done (ev', ms', err)
           (mkWorld (resp w) (batches w ++ infos) (ch w) n' r'
                    (log w) (completes w) (ticks w)) ∧
    decoded h dec ev ms ev' ms' infos.
Proof.
  intros Hsplit dec. induction dec as [|x|x y dec IH] using list_pair_ind;
    intros Hret ev ms w.
  - exists ev, ms, None, [], (next_gate w), (body_reads w). split.
    + destruct w. simpl. by rewrite app_nil_r.
    + unfold decoded, accepted_events. simpl. rewrite !app_nil_r.
        split_and!; auto.
  - destruct x as [m|e].
    + exists ev, ms, (Some "EOF"), [], (next_gate w), (S (S (body_reads w))). split.
      * destruct w. simpl. by rewrite app_nil_r.
      * unfold decoded, accepted_events. simpl. rewrite !app_nil_r.
        split_and!; auto.
    + exists ev, ms, (Some e), [], (next_gate w), (S (body_reads w)). split.
      * destruct w. simpl. by rewrite app_nil_r.
      * unfold decoded, accepted_events. simpl. rewrite !app_nil_r.
        split_and!; auto.
  - destruct x as [mt|e].
    2:{ exists ev, ms, (Some e), [], (next_gate w), (S (body_reads w)). split.
        - destruct w. simpl. by rewrite app_nil_r.
        - unfold decoded, accepted_events. simpl. rewrite !app_nil_r.
        split_and!; auto. }
    destruct y as [[m|]|e].
    3:{ exists ev, ms, (Some e), [], (next_gate w), (S (S (body_reads w))). split.
        - destruct w. simpl. by rewrite app_nil_r.
        - unfold decoded, accepted_events. simpl. rewrite !app_nil_r.
        split_and!; auto. }
    2:{ destruct Hret. }
    simpl in Hret. specialize (IH Hret).
    set (ev1 := append ev (with_metadata mt m)).
    set (ms1 := append ms mt).
    destruct (decide (len ev1 = cap ev1)) as [Hfull|Hroom].
    + (* the group is full: it is sent and a fresh one started *)
      set (w1 := mkWorld (resp w)
                   (batches w ++ [mkInfo (mkBatch (elems ev1) (next_gate w)) (elems ms1)])
                   (ch w) (S (next_gate w)) (S (S (body_reads w)))
                   (log w) (completes w) (ticks w)).
      destruct (IH (mkSlice [] (Z.to_nat (Es.split h)))
                   (mkSlice [] (Z.to_nat (Es.split h))) w1)
        as (ev' & ms' & err & infos & n' & r' & Hrun & Hev & Hms & Hlen & Hsz).
      exists ev', ms', err,
        (mkInfo (mkBatch (elems ev1) (next_gate w)) (elems ms1) :: infos), n', r'.
      split.
      * simpl. run. fold ev1 ms1.
        rewrite (bool_decide_eq_true_2 _ Hfull). simpl.
        rewrite !make_ok by done. simpl.
        fold w1 in Hrun |- *.
        etrans; [exact Hrun|]. subst w1. simpl. by rewrite <- app_assoc.
      * unfold decoded in *. simpl in *. split_and!.
        -- rewrite <- app_assoc, Hev. unfold accepted_events. simpl.
           subst ev1. rewrite elems_append, <- app_assoc. reflexivity.
        -- rewrite <- app_assoc, Hms. simpl.
           subst ms1. rewrite elems_append, <- app_assoc. reflexivity.
        -- intros _. by apply Hlen.
        -- intros Hcap Hlt.
           assert (Hc1 : cap ev1 = cap ev) by (by apply cap_append_room).
           destruct Hsz as (Hc' & Hl' & Hall); [done| unfold len; simpl; lia |].
           split_and!; [congruence | lia |].
           constructor; [simpl; fold (len ev1); lia |].
           eapply Forall_impl; [exact Hall|]. simpl. intros i Hi. lia.
    + (* there is room left *)
      set (w1 := mkWorld (resp w) (batches w) (ch w) (next_gate w)
                   (S (S (body_reads w))) (log w) (completes w) (ticks w)).
      destruct (IH ev1 ms1 w1)
        as (ev' & ms' & err & infos & n' & r' & Hrun & Hev & Hms & Hlen & Hsz).
      exists ev', ms', err, infos, n', r'.
      split.
      * simpl. run. fold ev1 ms1.
        rewrite (bool_decide_eq_false_2 _ Hroom).
        fold w1 in Hrun |- *. exact Hrun.
      * unfold decoded in *. split_and!.
        -- rewrite Hev. unfold accepted_events. simpl.
           subst ev1. rewrite elems_append, <- app_assoc. reflexivity.
        -- rewrite Hms. simpl.
           subst ms1. rewrite elems_append, <- app_assoc. reflexivity.
        -- intros Heq. apply Hlen. subst ev1 ms1. rewrite !len_append. congruence.
        -- intros Hcap Hlt.
           assert (Hc1 : cap ev1 = cap ev) by (by apply cap_append_room).
           assert (Hl1 : len ev1 = S (len ev)) by apply len_append.
           destruct Hsz as (Hc' & Hl' & Hall); [congruence | lia |].
           split_and!; [congruence | lia |].
           eapply Forall_impl; [exact Hall|]. simpl. intros i Hi. lia.
Qed.


(** ** The drain task *)

Lemma writer_Write_run wr s w :
  Es.writer_Write wr s w = Done tt (emit (EWrite s) (set_resp (wput wr s) w)).
Proof. by destruct wr. Qed.

Lemma written_implicit_status r : written (implicit_status r) = written r.
Proof. unfold implicit_status. by destruct (status r). Qed.

Lemma out_wput wr s w : out (emit (EWrite s) (set_resp (wput wr s) w)) = out w +:+ s.
Proof.
  unfold out. destruct wr; simpl.
  - by rewrite written_implicit_status, body_text_snoc.
  - by rewrite body_text_gz_put, written_implicit_status.
Qed.

(** In silent mode the drain task puts each group's batch on the ingestion
    channel and does nothing else. *)
Lemma drain_loop_silent h wr infos : Es.silent h = true → ∀ first w,
  Es.drain_loop h wr first infos w =
    Done tt (mkWorld (resp w) (batches w) (ch w ++ map batch infos) (next_gate w)
               (body_reads w) (log w ++ map (λ i, EEnqueue (batch i)) infos)
               (completes w) (ticks w)).
Proof.
  intros Hs. induction infos as [|i infos IH]; intros first w.
  - destruct w. simpl. by rewrite !app_nil_r.
  - simpl. unfold Es.drain_one. rewrite Hs. run.
    rewrite IH. simpl. by rewrite <- !app_assoc.
Qed.

Lemma write_more_spec wr k : ∀ w,
  ∃ w', Es.write_more wr k w = Done tt w' ∧
        ch w' = ch w ∧ out w' = out w +:+ more_items k ∧
        completes w' = completes w.
Proof.
  induction k as [|k IH]; intros w.
  - exists w. simpl. by rewrite string_app_nil_r.
  - simpl. run. rewrite writer_Write_run.
    destruct (IH (emit (EWrite ("," +:+ Es.created))
                    (set_resp (wput wr ("," +:+ Es.created)) w)))
      as (w' & Hrun & Hch & Hout & Hc).
    exists w'. rewrite Hrun. split_and!; [done|done| |done].
    by rewrite Hout, out_wput, string_app_assoc.
Qed.

(** One group whose gate the consumer completes, not in silent mode. *)
Lemma drain_one_spec h wr first i w :
  Es.silent h = false → completes w (gate (batch i)) = true →
  ∃ w', Es.drain_one h wr first i w =
          Done (first && bool_decide (length (meta i) = 0)) w' ∧
        ch w' = ch w ++ [batch i] ∧
        out w' = out w +:+ items first (length (meta i)) ∧
        completes w' = completes w.
Proof.
  intros Hs Hc. unfold Es.drain_one. rewrite Hs. unfold ch_send. run.
  set (w0 := emit (EEnqueue (batch i)) (set_ch (λ q, q ++ [batch i]) w)).
  assert (Hc0 : completes w0 (gate (batch i)) = true) by done.
  case_bool_decide as Hlen.
  - exists w0. split; [by rewrite andb_true_r|]. rewrite Hlen. simpl.
    by rewrite string_app_nil_r.
  - destruct (length (meta i)) as [|k] eqn:Hk; [done|].
    rewrite andb_false_r.
    destruct first.
    + rewrite writer_Write_run. cbn beta iota. rewrite Nat.sub_succ, Nat.sub_0_r.
      destruct (write_more_spec wr k
                  (emit (EWrite Es.created) (set_resp (wput wr Es.created) w0)))
        as (w' & Hrun & Hch & Hout & Hcw).
      rewrite Hrun. unfold Await. rewrite Hcw. simpl. rewrite Hc.
      eexists. split; [reflexivity|]. simpl. split_and!; [by rewrite Hch| |done].
      change (out (emit (EAwait (batch i)) w')) with (out w').
      rewrite Hout, out_wput, string_app_assoc. reflexivity.
    + cbn beta iota. rewrite Nat.sub_0_r.
      destruct (write_more_spec wr (S k) w0) as (w' & Hrun & Hch & Hout & Hcw).
      rewrite Hrun. unfold Await. rewrite Hcw. simpl. rewrite Hc.
      eexists. split; [reflexivity|]. simpl. split_and!; [by rewrite Hch| |done].
      change (out (emit (EAwait (batch i)) w')) with (out w').
      rewrite Hout. reflexivity.
Qed.

(** The same group when the consumer never completes it: the drain task
    has enqueued the batch and written the status entries of the group
    when it comes to wait on the gate. *)
Lemma drain_one_writes_then_waits h wr first i w :
  Es.silent h = false → meta i ≠ [] → completes w (gate (batch i)) = false →
  ∃ w', Es.drain_one h wr first i w = Parked w' ∧
        ch w' = ch w ++ [batch i] ∧
        out w' = out w +:+ items first (length (meta i)).
Proof.
  intros Hs Hne Hc. unfold Es.drain_one. rewrite Hs. unfold ch_send. run.
  set (w0 := emit (EEnqueue (batch i)) (set_ch (λ q, q ++ [batch i]) w)).
  destruct (meta i) as [|m ms] eqn:Hm; [done|]. simpl length.
  rewrite bool_decide_eq_false_2 by done.
  destruct first.
  - rewrite writer_Write_run. cbn beta iota.
    replace (length (m :: ms) - 1) with (length ms) by (simpl; lia).
    destruct (write_more_spec wr (length ms)
                (emit (EWrite Es.created) (set_resp (wput wr Es.created) w0)))
      as (w' & Hrun & Hch & Hout & Hcw).
    rewrite Hrun. unfold Await. rewrite Hcw. simpl. rewrite Hc.
    exists w'. split; [done|]. split; [by rewrite Hch|].
    rewrite Hout, out_wput, string_app_assoc. reflexivity.
  - cbn beta iota. replace (length (m :: ms) - 0) with (S (length ms)) by (simpl; lia).
    destruct (write_more_spec wr (S (length ms)) w0) as (w' & Hrun & Hch & Hout & Hcw).
    rewrite Hrun. unfold Await. rewrite Hcw. simpl. rewrite Hc.
    exists w'. split; [done|]. split; [by rewrite Hch|].
    rewrite Hout. reflexivity.
Qed.

Lemma drain_loop_spec h wr infos : Es.silent h = false → ∀ first w,
  (∀ g, completes w g = true) →
  ∃ w', Es.drain_loop h wr first infos w = Done tt w' ∧
        ch w' = ch w ++ map batch infos ∧
        out w' = out w +:+ items first (length (concat (map meta infos))).
Proof.
  intros Hs. induction infos as [|i infos IH]; intros first w Hc.
  - exists w. simpl. by rewrite app_nil_r, string_app_nil_r.
  - destruct (drain_one_spec h wr first i w Hs (Hc _)) as (w1 & Hrun & Hch & Hout & Hcw).
    destruct (IH (first && bool_decide (length (meta i) = 0)) w1) as (w' & Hrun' & Hch' & Hout').
    { intros g. by rewrite Hcw. }
    exists w'. simpl. run. rewrite Hrun. split_and!; [done| |].
    + by rewrite Hch', Hch, <- app_assoc.
    + by rewrite Hout', Hout, length_app, items_add, string_app_assoc.
Qed.

(** ** Any interleaving of the decode loop and the drain task *)

(** Whatever the order in which the handler sends and the drain task
    receives, what is left to drain gives the result of draining all the
    groups in the order sent. *)
Lemma pipe_step_drain_loop h wr p p' :
  pipe_step h wr p p' →
  Es.drain_loop h wr (drain_first p') (in_channel p' ++ to_send p') (drain_world p') =
  Es.drain_loop h wr (drain_first p) (in_channel p ++ to_send p) (drain_world p).
Proof.
  destruct 1 as [i rest q f w Hroom | q f w | ts i q cl f f' w w' Hone]; simpl.
  - by rewrite <- app_assoc.
  - done.
  - run. by rewrite Hone.
Qed.

(** Every run of the two goroutines that ends, with all groups sent and
    drained, leaves the world that the drain loop leaves on the groups in
    the order sent. *)
Lemma pipeline_ends_as_drain_loop h wr infos w p :
  rtc (pipe_step h wr) (mkPipeline infos [] false true w) p →
  to_send p = [] → in_channel p = [] →
  Es.drain_loop h wr true infos w = Done tt (drain_world p).
Proof.
  intros Hrun Hts Hq.
  assert (Hinv : ∀ p0 p1, rtc (pipe_step h wr) p0 p1 →
            Es.drain_loop h wr (drain_first p1) (in_channel p1 ++ to_send p1) (drain_world p1)
            = Es.drain_loop h wr (drain_first p0) (in_channel p0 ++ to_send p0) (drain_world p0)).
  { induction 1 as [p1|p1 p2 p3 Hstep _ IH]; [done|].
    rewrite IH. by apply pipe_step_drain_loop. }
  specialize (Hinv _ _ Hrun). simpl in Hinv.
  rewrite <- Hinv, Hts, Hq. reflexivity.
Qed.

(** And when the drain loop returns on the groups in the order sent, the
    two goroutines have a run that ends (the channel never holds more than
    one group in it). *)
Lemma drain_loop_has_run h wr infos : ∀ f w w',
  Es.drain_loop h wr f infos w = Done tt w' →
  ∃ f', rtc (pipe_step h wr) (mkPipeline infos [] false f w) (mkPipeline [] [] true f' w').
Proof.
  induction infos as [|i infos IH]; intros f w w' Hrun.
  - injection Hrun as <-. exists f. apply rtc_once, step_close.
  - simpl in Hrun. revert Hrun. run.
    destruct (Es.drain_one h wr f i w) as [f1 w1| |] eqn:Hone; [|done|done].
    intros Hrun. destruct (IH f1 w1 w' Hrun) as [f' Hrest].
    exists f'.
    eapply rtc_l; [apply (step_send h wr i infos [] f w); simpl; lia|].
    eapply rtc_l; [apply (step_drain h wr infos i [] false f f1 w w1 Hone)|].
    exact Hrest.
Qed.

(** ** A bulk request on which the handler returns *)

Lemma out_status_line w k v code :
  out (emit (EWriteHeader code)
         (set_resp (λ r, match status r with
                         | Some _ => r
                         | None => mkResponse (header r) (Some code) (header r)
                                     (written r) (seen r) (is_flusher r)
                         end)
            (set_resp (λ r, mkResponse (Header_Add (header r) k v) (status r)
                              (sent_header r) (written r) (seen r) (is_flusher r)) w)))
  = out w.
Proof. unfold out. simpl. by destruct (status (resp w)). Qed.

Lemma full_groups (s : nat) (infos : list info) :
  Forall (λ i, length (Events (batch i)) = s) infos →
  map (λ b, length (Events b)) (map batch infos) = replicate (length infos) s ∧
  length (concat (map (λ i, Events (batch i)) infos)) = length infos * s.
Proof.
  induction 1 as [|i infos Hi _ [IH1 IH2]]; [done|].
  simpl. rewrite length_app, IH1, IH2, Hi. done.
Qed.

Lemma length_zero_nil {A} (l : list A) : ¬ 0 < length l → l = [].
Proof. destruct l; simpl; [done|lia]. Qed.

Lemma serveBulk_stream_returns h wr dec w :
  (0 ≤ Es.split h)%Z → loop_returns dec → batches w = [] →
  Es.silent h = true ∨ (∀ g, completes w g = true) →
  ∃ w' bs,
    Es.serveBulk_stream h dec wr w = Done tt w' ∧
    ch w' = ch w ++ bs ∧
    concat (map Events bs) = accepted_events dec ∧
    out w' = out w +:+ Es.items_open +:+
             items true (if Es.silent h then 0 else length (accepted dec)) +:+
             Es.items_close ∧
    (Es.silent h = true →
       log w' = log w ++ [EWriteHeader 200; EWrite Es.items_open] ++
                map EEnqueue bs ++ [EWrite Es.items_close]) ∧
    ((0 < Es.split h)%Z →
       sizes_ok (Z.to_nat (Es.split h)) (length (accepted dec))
                (map (λ b, length (Events b)) bs)).
Proof.
  intros Hsplit Hret Hb Henv.
  unfold Es.serveBulk_stream. run. rewrite !make_ok by done. simpl.
  rewrite writer_Write_run.
  set (w1 := emit (EWrite Es.items_open) (set_resp (wput wr Es.items_open) _)).
  assert (Hout1 : out w1 = out w +:+ Es.items_open).
  { subst w1. rewrite out_wput. f_equal. unfold out. simpl. by destruct (status (resp w)). }
  assert (Hch1 : ch w1 = ch w) by done.
  assert (Hlog1 : log w1 = log w ++ [EWriteHeader 200; EWrite Es.items_open]).
  { subst w1. simpl. by rewrite <- app_assoc. }
  assert (Hb1 : batches w1 = []) by done.
  assert (Hc1 : completes w1 = completes w) by done.
  clearbody w1.
  destruct (decode_loop_returns h Hsplit dec Hret
              (mkSlice [] (Z.to_nat (Es.split h))) (mkSlice [] (Z.to_nat (Es.split h))) w1)
    as (ev' & ms' & err & infos & n' & r' & Hrun & Hev & Hms & Hlen & Hsz).
  rewrite Hrun. cbn beta iota. rewrite Hb1, app_nil_l.
  simpl in Hev, Hms.
  (* the group that is left over *)
  set (res := if bool_decide (0 < len ev')
              then [mkInfo (mkBatch (elems ev') n') (elems ms')] else []).
  assert (Hall_ev : concat (map (λ i, Events (batch i)) (infos ++ res)) = accepted_events dec).
  { rewrite map_app, concat_app, <- Hev. f_equal. subst res.
    case_bool_decide as H0; simpl; [by rewrite app_nil_r|].
    symmetry. by apply length_zero_nil. }
  assert (Hall_ms : length (concat (map meta (infos ++ res))) = length (accepted dec)).
  { rewrite <- (length_map fst (accepted dec)), <- Hms.
    rewrite map_app, concat_app, !length_app. f_equal. subst res.
    case_bool_decide as H0; simpl; [by rewrite app_nil_r|].
    rewrite (Hlen eq_refl) in H0. by rewrite (length_zero_nil _ H0). }
  assert (Hsizes : (0 < Es.split h)%Z →
    sizes_ok (Z.to_nat (Es.split h)) (length (accepted dec))
      (map (λ b, length (Events b)) (map batch (infos ++ res)))).
  { intros Hpos.
    destruct Hsz as (Hcap & Hlt & Hfull); [done | unfold len; simpl; lia |].
    simpl in Hcap, Hfull. apply full_groups in Hfull as [Hmap Hcat].
    exists (length infos), (len ev'). split_and!.
    - rewrite !map_app, Hmap. f_equal. subst res.
      unfold len in *. case_bool_decide as H0; case_bool_decide as H1; simpl; try done; lia.
    - apply (f_equal length) in Hev. unfold accepted_events in Hev.
      rewrite length_app, length_map, Hcat in Hev. exact Hev.
    - lia. }
  assert (Hbs : concat (map Events (map batch (infos ++ res))) = accepted_events dec).
  { rewrite <- Hall_ev. f_equal. by rewrite map_map. }
  assert (Htail : ∀ n2, ∃ w' bs,
    match Es.drain h wr (mkWorld (resp w1) (infos ++ res) (ch w1) n2 r' (log w1)
                           (completes w1) (ticks w1)) with
    | Done _ w => Es.writer_Write wr Es.items_close w
    | Parked w => Parked w
    | Panicked w => Panicked w
    end = Done tt w' ∧
    ch w' = ch w ++ bs ∧
    concat (map Events bs) = accepted_events dec ∧
    out w' = out w +:+ Es.items_open +:+
             items true (if Es.silent h then 0 else length (accepted dec)) +:+
             Es.items_close ∧
    (Es.silent h = true →
       log w' = log w ++ [EWriteHeader 200; EWrite Es.items_open] ++
                map EEnqueue bs ++ [EWrite Es.items_close]) ∧
    ((0 < Es.split h)%Z →
       sizes_ok (Z.to_nat (Es.split h)) (length (accepted dec))
                (map (λ b, length (Events b)) bs))).
  { clearbody res. intros n2.
    unfold Es.drain. simpl.
    destruct (Es.silent h) eqn:Hs.
    - rewrite drain_loop_silent by done. simpl. rewrite writer_Write_run.
      eexists _, (map batch (infos ++ res)). split; [reflexivity|].
      split_and!; try done.
      + simpl. by rewrite Hch1.
      + rewrite out_wput. unfold out in *. simpl. rewrite Hout1. simpl.
        by rewrite !string_app_assoc.
      + intros _. simpl. rewrite Hlog1, map_map, <- !app_assoc. reflexivity.
    - destruct Henv as [?|Hc]; [done|].
      set (w2 := set_batches _ _).
      destruct (drain_loop_spec h wr (infos ++ res) Hs true w2) as (w3 & Hrun3 & Hch3 & Hout3).
      { intros g. subst w2. simpl. by rewrite Hc1. }
      rewrite Hrun3, writer_Write_run.
      eexists _, (map batch (infos ++ res)). split; [reflexivity|].
      split_and!; try done.
      + simpl. by rewrite Hch3, <- Hch1.
      + rewrite out_wput, Hout3, Hall_ms. subst w2. unfold out in *. simpl.
        rewrite Hout1. by rewrite !string_app_assoc. }
  clear -Htail. revert Htail. subst res.
  destruct (bool_decide (0 < len ev')); intros Htail.
  - apply (Htail (S n')).
  - specialize (Htail n'). rewrite app_nil_r in Htail. apply Htail.
Qed.

Lemma open_reader_run requ w :
  ∃ r, Es.open_reader requ w =
       Done (Es.body_docs requ)
            (mkWorld (resp w) (batches w) (ch w) (next_gate w) r (log w)
                     (completes w) (ticks w)).
Proof.
  unfold Es.open_reader. case_bool_decide; run; destruct w; eauto.
Qed.

(** The handler on a fresh response, for a request it serves to the end:
    the batches it put on the ingestion channel and the body it wrote. *)
Lemma serveBulk_returns h requ dec q n fl c k :
  Es.body_docs requ = inr dec →
  (0 ≤ Es.split h)%Z → loop_returns dec →
  Es.silent h = true ∨ (∀ g, c g = true) →
  ∃ w' bs,
    Es.serveBulk h requ (fresh_world q n fl c k) = Done tt w' ∧
    ch w' = q ++ bs ∧
    concat (map Events bs) = accepted_events dec ∧
    out w' = Es.items_open +:+
             items true (if Es.silent h then 0 else length (accepted dec)) +:+
             Es.items_close ∧
    (Es.silent h = true →
       log w' = [EWriteHeader 200; EWrite Es.items_open] ++
                map EEnqueue bs ++ [EWrite Es.items_close]) ∧
    ((0 < Es.split h)%Z →
       sizes_ok (Z.to_nat (Es.split h)) (length (accepted dec))
                (map (λ b, length (Events b)) bs)).
Proof.
  intros Hdocs Hsplit Hret Henv.
  unfold Es.serveBulk. destruct (strings_Contains _ _).
  - unfold defer, Es.serveBulk_body. run.
    set (w0 := set_resp _ _).
    destruct (open_reader_run requ w0) as [r ->]. rewrite Hdocs.
    set (w1 := mkWorld _ _ _ _ _ _ _ _).
    destruct (serveBulk_stream_returns h Es.WGzip dec w1 Hsplit Hret eq_refl Henv)
      as (w' & bs & Hrun & Hch & Hev & Hout & Hlog & Hsz).
    rewrite Hrun. unfold Es.gz_Close. run.
    eexists _, bs. split; [reflexivity|]. simpl.
    split_and!; try done.
    unfold out in *. simpl. rewrite body_text_gz_put, written_implicit_status, Hout.
    simpl. by rewrite string_app_nil_r.
  - unfold Es.serveBulk_body. run.
    destruct (open_reader_run requ (fresh_world q n fl c k)) as [r ->]. rewrite Hdocs.
    set (w1 := mkWorld _ _ _ _ _ _ _ _).
    destruct (serveBulk_stream_returns h Es.WResp dec w1 Hsplit Hret eq_refl Henv)
      as (w' & bs & Hrun & Hch & Hev & Hout & Hlog & Hsz).
    exists w', bs. split_and!; done.
Qed.

Lemma ServeHTTP_POST h requ : Method requ = "POST" → Es.ServeHTTP h requ = Es.serveBulk h requ.
Proof. intros H. unfold Es.ServeHTTP. by rewrite H. Qed.

Lemma items_concat n : items true n = String.concat "," (replicate n Es.created).
Proof.
  destruct n as [|n]; [done|].
  induction n as [|n IH].
  - simpl. by rewrite string_app_nil_r.
  - change (items true (S (S n))) with (Es.created +:+ ("," +:+ Es.created) +:+ more_items n).
    rewrite string_app_assoc.
    change (Es.created +:+ more_items n) with (items true (S n)).
    rewrite IH. reflexivity.
Qed.

Lemma accepted_pairs pairs :
  accepted (pairs_docs pairs) = map (λ p, (Some p.1, p.2)) pairs.
Proof. induction pairs as [|p pairs IH]; simpl; [done|]. by rewrite <- IH. Qed.

Lemma loop_returns_pairs pairs : loop_returns (pairs_docs pairs).
Proof. induction pairs as [|p pairs IH]; simpl; done. Qed.

Lemma sizes_ok_div_mod s n l :
  sizes_ok s n l →
  l = replicate (n / s) s ++ (if bool_decide (n mod s = 0) then [] else [n mod s]).
Proof.
  intros (full & r & -> & Hn & Hr).
  assert (Hq : full = n / s) by (apply (Nat.div_unique n s full r); lia).
  assert (Hm : r = n mod s) by (apply (Nat.mod_unique n s full r); lia).
  by rewrite <- Hq, <- Hm.
Qed.

(** ** The ES-bulk handler *)



(** C5: when the decode loop ends, at the end of the input or on a decode
    error, and the drain task finishes (silent mode, or a consumer that
    completes the batches), the handler returns; every event the loop
    accepted, those of the group that was left over included, is in a
    batch on the ingestion channel, in input order; and the body is the
    opened array, the status entries and the terminator, a JSON text. *)
Theorem residual_group_flushed_and_array_closed
    (h : Es.httpHandler) (requ : Request) (dec : list dec_item)
    (q : list Batch) (n : nat) (fl : bool) (c : nat → bool) (k : nat) :
  Method requ = "POST" →
  Es.body_docs requ = inr dec →
  (0 ≤ Es.split h)%Z →
  loop_returns dec →
  Es.silent h = true ∨ (∀ g, c g = true) →
  ∃ w' bs entries,
    Es.ServeHTTP h requ (fresh_world q n fl c k) = Done tt w' ∧
    ch w' = q ++ bs ∧
    concat (map Events bs) = accepted_events dec ∧
    out w' = Es.items_open +:+ entries +:+ Es.items_close ∧
    json_text (out w').
Proof.
  intros Hpost Hdocs Hsplit Hret Henv.
  rewrite (ServeHTTP_POST _ _ Hpost).
  destruct (serveBulk_returns h requ dec q n fl c k Hdocs Hsplit Hret Henv)
    as (w' & bs & Hrun & Hch & Hev & Hout & _ & _).
  exists w', bs, (items true (if Es.silent h then 0 else length (accepted dec))).
  split_and!; auto.
  rewrite Hout. apply json_text_items.
Qed.

Lemma residual_group_flushed_and_array_closed_witness :
  ∃ w' bs entries,
    Es.ServeHTTP (Es.mkHandler false 2 true)
      (gzip_bulk_request (one_doc 1 ++ one_doc 2 ++ one_doc 3 ++ [DecErr "invalid character"]))
      (fresh_world [] 0 true (λ _, true) 0) = Done tt w' ∧
    ch w' = [] ++ bs ∧
    concat (map Events bs) =
      accepted_events (one_doc 1 ++ one_doc 2 ++ one_doc 3 ++ [DecErr "invalid character"]) ∧
    out w' = Es.items_open +:+ entries +:+ Es.items_close ∧
    json_text (out w').
Proof.
  apply (residual_group_flushed_and_array_closed (Es.mkHandler false 2 true)
           (gzip_bulk_request (one_doc 1 ++ one_doc 2 ++ one_doc 3 ++ [DecErr "invalid character"]))
           (one_doc 1 ++ one_doc 2 ++ one_doc 3 ++ [DecErr "invalid character"])
           [] 0 true (λ _, true) 0);
    first [reflexivity | simpl; lia | simpl; exact I | right; reflexivity].
Defined.

(** C6: with a split threshold [s > 0] and [n] well-formed
    metadata/source line pairs the groups are formed in input order, [n / s]
    of size [s] and then one of size [n mod s] when that is not zero; not
    in silent mode, and with a consumer that completes them, the items
    array has exactly [n] status entries. *)
Theorem groups_follow_split
    (h : Es.httpHandler) (requ : Request)
    (pairs : list (gmap string value * gmap string value))
    (q : list Batch) (n : nat) (fl : bool) (c : nat → bool) (k : nat) :
  Method requ = "POST" →
  (0 < Es.split h)%Z →
  Es.silent h = false →
  Es.body_docs requ = inr (pairs_docs pairs) →
  (∀ g, c g = true) →
  ∃ w' bs,
    Es.ServeHTTP h requ (fresh_world q n fl c k) = Done tt w' ∧
    ch w' = q ++ bs ∧
    map (λ b, length (Events b)) bs =
      replicate (length pairs / Z.to_nat (Es.split h)) (Z.to_nat (Es.split h)) ++
      (if bool_decide (length pairs mod Z.to_nat (Es.split h) = 0) then []
       else [length pairs mod Z.to_nat (Es.split h)]) ∧
    concat (map Events bs) = map pair_event pairs ∧
    out w' = Es.items_open +:+
             String.concat "," (replicate (length pairs) Es.created) +:+
             Es.items_close.
Proof.
  intros Hpost Hsplit Hs Hdocs Hc.
  rewrite (ServeHTTP_POST _ _ Hpost).
  destruct (serveBulk_returns h requ (pairs_docs pairs) q n fl c k Hdocs
              ltac:(lia) (loop_returns_pairs pairs) (or_intror Hc))
    as (w' & bs & Hrun & Hch & Hev & Hout & _ & Hsz).
  exists w', bs.
  rewrite Hs in Hout. unfold accepted_events in Hev.
  rewrite accepted_pairs, length_map in *.
  split_and!; auto.
  - apply sizes_ok_div_mod, Hsz, Hsplit.
  - rewrite Hev, map_map. reflexivity.
  - by rewrite Hout, items_concat.
Qed.

Lemma groups_follow_split_witness :
  ∃ w' bs,
    Es.ServeHTTP (Es.mkHandler false 2 true) (bulk_request (pairs_docs five_pairs))
      (fresh_world [] 0 true (λ _, true) 0) = Done tt w' ∧
    ch w' = [] ++ bs ∧
    map (λ b, length (Events b)) bs = [2; 2; 1] ∧
    concat (map Events bs) = map pair_event five_pairs ∧
    out w' = Es.items_open +:+
             String.concat "," (replicate 5 Es.created) +:+
             Es.items_close.
Proof.
  apply (groups_follow_split (Es.mkHandler false 2 true)
           (bulk_request (pairs_docs five_pairs)) five_pairs
           [] 0 true (λ _, true) 0);
    first [reflexivity | simpl; lia].
Defined.

(** ** The push client *)

Lemma write_all_run l : ∀ c out,
  V2.write_all l (c, out) = (tt, (V2.set_buf (V2.buf c +:+ joined l) c, out)).
Proof.
  induction l as [|b l IH]; intros c out; simpl.
  - rewrite string_app_nil_r. by destruct c.
  - unfold V2.Write. crun. rewrite IH. simpl. by rewrite string_app_assoc.
Qed.

(** Reading touches nothing but the stored response. *)
Lemma run_reading_frame {A} (r : V2.reading A) : ∀ c out,
  ∃ a resp', V2.run_reading r (c, out) = (a, (V2.set_resp resp' c, out)).
Proof.
  induction r as [a|k cont IH]; intros c out.
  - exists a, (V2.resp c). by destruct c.
  - simpl. unfold V2.Read. crun.
    destruct (V2.resp c) as [rs|] eqn:Hr.
    + destruct (V2.Body_Read k rs) as [[data err] rs'].
      case_bool_decide.
      * crun. destruct (IH (data, None) (V2.set_resp None c) out) as (a & resp' & ->).
        by exists a, resp'.
      * crun. destruct (IH (data, err) (V2.set_resp (Some rs') c) out) as (a & resp' & ->).
        by exists a, resp'.
    + crun. destruct (IH ("", Some (V2.io_other "No HTTP Response")) c out) as (a & resp' & ->).
      by exists a, resp'.
Qed.

Lemma lumberjack_headers_added (h : Header) :
  h !! "Content-Type" = None → h !! "Accept" = None → h !! "X-Lumberjack-Version" = None →
  lumberjack_headers
    (Header_Add (Header_Add (Header_Add h "Content-Type" "application/lumberjack")
                   "Accept" "application/lumberjack") "X-Lumberjack-Version" "2.0").
Proof.
  intros H1 H2 H3. unfold lumberjack_headers, Header_Add.
  split_and!; simplify_map_eq; done.
Qed.

Section ClientProperties.

Context {Option options Client : Type}.
Variable url_error : string → error.
Variable basicAuth : string → string → string.
Variable options_timeout : options → Z.
Variable applyOptions : list Option → string + options.
Variable NewWithConn : V2.httpConn → list Option → string + Client.
Variable Client_Send : Client → list value → list string * error.
Variable Client_AwaitACK : Client → Z → V2.reading (Z * error).

Lemma Push_bad_url c out e :
  url_error (V2.url c) = Some e →
  V2.Push url_error basicAuth (c, out) = (Some e, (c, out)).
Proof. intros H. unfold V2.Push, V2.NewRequest. crun. by rewrite H. Qed.

Lemma Push_run c out :
  url_error (V2.url c) = None →
  V2.Push url_error basicAuth (c, out) =
    let r := push_request basicAuth c in
    let rt := V2.Transport (V2.http c) r in
    let c1 := V2.set_buf (V2.unread rt) c in
    match V2.answer rt with
    | inl e => (Some e, (c1, out ++ [r]))
    | inr resp =>
        if bool_decide (V2.StatusCode resp ≠ 200%Z)
        then (Some (status_error resp), (c1, out ++ [r]))
        else (None, (V2.set_resp (Some resp) c1, out ++ [r]))
    end.
Proof.
  intros H. unfold V2.Push, V2.NewRequest. crun. rewrite H. simpl.
  unfold V2.Do. simpl. fold (push_request basicAuth c).
  destruct (V2.answer _) as [e|resp]; [done|].
  by case_bool_decide.
Qed.

Lemma push_request_headers c : lumberjack_headers (V2.req_header (push_request basicAuth c)).
Proof.
  unfold push_request. simpl.
  destruct (_ && _); simpl; apply lumberjack_headers_added;
    unfold V2.Header_Set; by simplify_map_eq.
Qed.

Lemma push_request_no_auth c :
  no_credentials c → V2.req_header (push_request basicAuth c) !! "Authorization" = None.
Proof.
  intros [Hu Hp]. unfold push_request. rewrite Hu. simpl.
  unfold Header_Add. by simplify_map_eq.
Qed.


Lemma Send_run cl data c out writes eerr :
  Client_Send cl data = (writes, eerr) →
  let c1 := V2.set_buf (joined writes) c in
  V2.Send url_error basicAuth Client_Send Client_AwaitACK cl data (c, out) =
    if bool_decide (eerr ≠ None) then ((0%Z, eerr), (c1, out))
    else
      let '(err, s) := V2.Push url_error basicAuth (c1, out) in
      if bool_decide (err ≠ None) then ((0%Z, err), s)
      else V2.run_reading
             (Client_AwaitACK cl (V2.uint32 (Z.of_nat (length data)))) s.
Proof.
  intros H. unfold V2.Send, V2.Reset, V2.client_Send. crun. rewrite H.
  crun. rewrite write_all_run. simpl.
  case_bool_decide; [done|].
  destruct (V2.Push _ _ _) as [err s].
  case_bool_decide; [done|].
  destruct (V2.run_reading _ _) as [[n e] s']. done.
Qed.

(** C7, amended: a push resets the send buffer before it encodes (the
    body of the request is what this call wrote); it issues no request
    when the encoding or the construction of the request fails, and
    otherwise exactly one, a POST to the URL with the three lumberjack
    headers; when the response to it has a status other than 200 the
    push returns an error with the status text, and the stored response is
    left as it was before the call. *)
Theorem push_posts_once_and_reports_status
    (cl : Client) (data : list value) (c : V2.httpConn)
    (out : list V2.HttpRequest) (writes : list string) (eerr : error) :
  Client_Send cl data = (writes, eerr) →
  ∃ n err c' out',
    V2.Send url_error basicAuth Client_Send Client_AwaitACK cl data (c, out)
      = ((n, err), (c', out')) ∧
    (eerr ≠ None ∨ url_error (V2.url c) ≠ None → out' = out ∧ err ≠ None) ∧
    (eerr = None → url_error (V2.url c) = None →
       ∃ r, out' = out ++ [r] ∧
            V2.req_method r = "POST" ∧
            V2.req_url r = V2.url c ∧
            V2.req_body r = joined writes ∧
            lumberjack_headers (V2.req_header r) ∧
            ∀ resp, V2.answer (V2.Transport (V2.http c) r) = inr resp →
                    V2.StatusCode resp ≠ 200%Z →
                    n = 0%Z ∧ err = Some (status_error resp) ∧ V2.resp c' = V2.resp c).
Proof.
  intros Henc. rewrite (Send_run _ _ _ _ _ _ Henc). cbv zeta.
  set (c1 := V2.set_buf (joined writes) c).
  case_bool_decide as He.
  { exists 0%Z, eerr, c1, out. split; [done|]. split; [done|]. intros ->. done. }
  subst eerr.
  destruct (url_error (V2.url c)) as [e|] eqn:Hurl.
  { rewrite (Push_bad_url c1 out e Hurl). simpl.
    exists 0%Z, (Some e), c1, out. split; [done|]. split; [done|]. done. }
  rewrite (Push_run c1 out Hurl). cbv zeta.
  set (r := push_request basicAuth c1).
  assert (Hr : V2.req_method r = "POST" ∧ V2.req_url r = V2.url c ∧
               V2.req_body r = joined writes ∧ lumberjack_headers (V2.req_header r)).
  { split_and!; [| | |apply push_request_headers];
      subst r; unfold push_request; simpl; by destruct (_ && _). }
  change (V2.http c1) with (V2.http c).
  destruct (V2.answer (V2.Transport (V2.http c) r)) as [e|resp] eqn:Hans.
  - simpl. eexists _, _, _, _. split; [reflexivity|]. split.
    + intros [?|?]; done.
    + intros _ _. exists r. split_and!; try apply Hr; try done.
      intros resp' H. rewrite Hans in H. discriminate H.
  - case_bool_decide as Hst.
    + simpl. eexists _, _, _, _. split; [reflexivity|]. split.
      * intros [?|?]; done.
      * intros _ _. exists r. split_and!; try apply Hr; try done.
        intros resp' H _. rewrite Hans in H. injection H as <-. done.
    + simpl.
      destruct (run_reading_frame
                  (Client_AwaitACK cl (V2.uint32 (Z.of_nat (length data))))
                  (V2.set_resp (Some resp)
                     (V2.set_buf (V2.unread (V2.Transport (V2.http c) r)) c1))
                  (out ++ [r])) as ([n err] & resp' & ->).
      eexists _, _, _, _. split; [reflexivity|]. split.
      * intros [?|?]; done.
      * intros _ _. exists r. split_and!; try apply Hr; try done.
        intros resp'' H Hne. rewrite Hans in H. injection H as <-. done.
Qed.

(** C10: the connection [NewHTTPClient] makes does not depend on the user
    name and the password it is given; it stores no credentials, a push
    keeps it so, and the requests a push issues carry no Authorization
    header. *)
Theorem credentials_are_discarded
    (url u1 p1 u2 p2 : string) (transp : V2.HttpRequest → V2.RoundTrip)
    (opts : list Option) :
  V2.NewHTTPClient options_timeout applyOptions NewWithConn url u1 p1 transp opts =
  V2.NewHTTPClient options_timeout applyOptions NewWithConn url u2 p2 transp opts ∧
  (∀ hc, V2.NewHTTPClient options_timeout applyOptions NewWithConn url u1 p1 transp opts
           = inr hc → no_credentials (V2.conn hc)) ∧
  (∀ (hc : V2.HttpClient) data out, no_credentials (V2.conn hc) →
     ∃ r hc' new,
       V2.HttpClient_Send url_error basicAuth Client_Send Client_AwaitACK hc data out
         = (r, (hc', out ++ new)) ∧
       no_credentials (V2.conn hc') ∧
       Forall (λ rq, V2.req_header rq !! "Authorization" = None) new).
Proof.
  split_and!.
  - reflexivity.
  - intros hc. unfold V2.NewHTTPClient.
    destruct (applyOptions opts) as [e|o]; [done|].
    destruct (NewWithConn _ _) as [e|cl]; [done|].
    intros [= <-]. done.
  - intros hc data out Hcred. unfold V2.HttpClient_Send.
    destruct (Client_Send (V2.client hc) data) as [writes eerr] eqn:Henc.
    rewrite (Send_run _ _ _ _ _ _ Henc). cbv zeta.
    set (c1 := V2.set_buf (joined writes) (V2.conn hc)).
    assert (Hc1 : no_credentials c1) by done.
    case_bool_decide.
    { eexists _, _, []. rewrite app_nil_r. split; [reflexivity|]. by split. }
    destruct (url_error (V2.url c1)) as [e|] eqn:Hurl.
    { rewrite (Push_bad_url c1 out e Hurl). simpl.
      eexists _, _, []. rewrite app_nil_r. split; [reflexivity|]. by split. }
    rewrite (Push_run c1 out Hurl). cbv zeta.
    pose proof (push_request_no_auth c1 Hc1) as Hauth.
    destruct (V2.answer _) as [e|resp].
    + simpl. eexists _, _, [_]. split; [reflexivity|]. split; [done|]. by constructor.
    + case_bool_decide.
      * simpl. eexists _, _, [_]. split; [reflexivity|]. split; [done|]. by constructor.
      * simpl.
        match goal with |- context [V2.run_reading ?rd (?c, ?o)] =>
          destruct (run_reading_frame rd c o) as ([n err] & resp' & ->) end.
        eexists _, _, [_]. split; [reflexivity|]. split; [done|]. by constructor.
Qed.

End ClientProperties.

Lemma push_posts_once_and_reports_status_witness :
  ∃ n err c' out',
    V2.Send sample_url_error sample_basicAuth sample_encode sample_await tt [VNull; VNull]
      (sample_conn "http://localhost:5044", []) = ((n, err), (c', out')) ∧
    (@None string ≠ None ∨ sample_url_error (V2.url (sample_conn "http://localhost:5044")) ≠ None →
       out' = [] ∧ err ≠ None) ∧
    (@None string = None →
     sample_url_error (V2.url (sample_conn "http://localhost:5044")) = None →
       ∃ r, out' = [] ++ [r] ∧
            V2.req_method r = "POST" ∧
            V2.req_url r = V2.url (sample_conn "http://localhost:5044") ∧
            V2.req_body r = joined ["B"] ∧
            lumberjack_headers (V2.req_header r) ∧
            ∀ resp, V2.answer (V2.Transport (V2.http (sample_conn "http://localhost:5044")) r)
                      = inr resp →
                    V2.StatusCode resp ≠ 200%Z →
                    n = 0%Z ∧ err = Some (status_error resp) ∧
                    V2.resp c' = V2.resp (sample_conn "http://localhost:5044")).
Proof.
  apply (push_posts_once_and_reports_status sample_url_error sample_basicAuth
           sample_encode sample_await tt [VNull; VNull]
           (sample_conn "http://localhost:5044") [] ["B"] None).
  reflexivity.
Defined.

(** C7, as stated, fails.  With a URL that [http.NewRequest] cannot parse
    the push issues no request at all; and after a push that was answered
    200 and a second one that was answered 500, the response of the first
    is still stored for the reads that follow. *)
Lemma push_not_always_one_post_nor_cleared :
  (let s := sample_Send [VNull] (sample_conn "http://[::1", []) in
   is_Some s.1.2 ∧ s.2.2 = []) ∧
  (let s1 := sample_Send [VNull] (sample_conn "http://localhost:5044", []) in
   let s2 := sample_Send [VNull; VNull] s1.2 in
   s1.1 = (1%Z, None) ∧
   s2.1 = (0%Z, Some "HTTP endpoint returned status '500 Internal Server Error'") ∧
   V2.resp s2.2.1 = Some (V2.mkResponse 200 "200 OK" "" false false)).
Proof. vm_compute. repeat split; try reflexivity. by eexists. Qed.

Lemma credentials_are_discarded_witness :
  sample_NewHTTPClient "alice" "secret" = sample_NewHTTPClient "" "" ∧
  ∃ hc r hc' new,
    sample_NewHTTPClient "alice" "secret" = inr hc ∧
    V2.HttpClient_Send sample_url_error sample_basicAuth sample_encode sample_await
      hc [VNull] [] = (r, (hc', [] ++ new)) ∧
    no_credentials (V2.conn hc') ∧
    Forall (λ rq, V2.req_header rq !! "Authorization" = None) new.
Proof.
  destruct (credentials_are_discarded (Option := unit) sample_url_error sample_basicAuth
              (λ _ : unit, 30 * Http.second)%Z (λ _, inr tt) (λ _ _, inr tt)
              sample_encode sample_await
              "http://localhost:5044" "alice" "secret" "" "" sample_transport [])
    as (Heq & Hnew & Hsend).
  split; [exact Heq|].
  exists (V2.mkHttpClient
            (V2.mkConn (V2.mkClient sample_transport (30 * Http.second)%Z)
               "http://localhost:5044" "" "" "" None 0) tt).
  destruct (Hsend (V2.mkHttpClient
            (V2.mkConn (V2.mkClient sample_transport (30 * Http.second)%Z)
               "http://localhost:5044" "" "" "" None 0) tt) [VNull] [])
    as (r & hc' & new & H1 & H2 & H3).
  { apply Hnew. reflexivity. }
  exists r, hc', new. split; [reflexivity|]. split; [exact H1|]. split; [exact H2|exact H3].
Defined.

(** * Further properties *)

(** ** The version-dispatching handler after the version check *)

(** The handler once the codec has been made and the batch read: the batch
    goes on the ingestion channel, the response header is filled in, and
    the handler waits, with or without keepalives, before it
    acknowledges. *)
Lemma serveBulk_accepts (h : Http.httpHandler) (requ : Request)
    (handler : Http.codec) rd wr b (w w1 w2 : world) :
  Header_Get (ReqHeader requ) "X-Lumberjack-Version" ≠ "" →
  Http.versions h !! Header_Get (ReqHeader requ) "X-Lumberjack-Version" = Some handler →
  handler (Http.mkConn requ)
    (emit (ECodec (Header_Get (ReqHeader requ) "X-Lumberjack-Version")) w)
    = Done (inr (rd, wr)) w1 →
  Internal.ReadBatch rd (emit EReadBatch w1) = Done (inr b) w2 →
  Http.serveBulk h requ w =
    (resp_Header_Add "Content-Type" "application/lumberjack" ;;
     resp_Header_Add "X-Lumberjack-Version"
       (Header_Get (ReqHeader requ) "X-Lumberjack-Version") ;;
     if bool_decide (0 < Http.keepalive (Http.opts h))%Z && Internal.HasKeepalive wr
        && is_flusher (resp w1)
     then
       k ← gets ticks;
       hasACK ← Http.keepalive_loop (Http.chunked (Http.mkChunked wr)) b k;
       if hasACK : bool
       then Internal.ACK wr (Z.of_nat (length (Events b))) ;; mret tt
       else (mret tt : M unit)
     else
       Await b ;;
       Internal.ACK wr (Z.of_nat (length (Events b))) ;; mret tt)
      (emit (EEnqueue b) (set_ch (λ q, q ++ [b]) w2)).
Proof.
  intros Hv Hlook Hcodec Hread.
  unfold Http.serveBulk. cbv zeta.
  case_bool_decide; [done|]. rewrite Hlook.
  run. rewrite Hcodec. simpl.
  destruct (bool_decide (0 < Http.keepalive (Http.opts h))%Z && Internal.HasKeepalive wr)
    eqn:Hka; simpl.
  - destruct (is_flusher (resp w1)) eqn:Hfl; simpl; rewrite Hread; reflexivity.
  - rewrite Hread. reflexivity.
Qed.

(** X1: when the codec constructor of the version fails, the handler
    answers 503 Service Unavailable with the error text as the body; it
    does not read a batch and puts nothing on the ingestion channel. *)
Theorem codec_failure_answers_503 (h : Http.httpHandler) (requ : Request)
    (handler : Http.codec) (err : string) (w w1 : world) :
  Header_Get (ReqHeader requ) "X-Lumberjack-Version" ≠ "" →
  Http.versions h !! Header_Get (ReqHeader requ) "X-Lumberjack-Version" = Some handler →
  handler (Http.mkConn requ)
    (emit (ECodec (Header_Get (ReqHeader requ) "X-Lumberjack-Version")) w)
    = Done (inl err) w1 →
  status (resp w1) = None →
  ∃ w',
    Http.serveBulk h requ w = Done tt w' ∧
    status (resp w') = Some 503 ∧
    written (resp w') = written (resp w1) ++ [Plain err] ∧
    ch w' = ch w1 ∧
    next_gate w' = next_gate w1 ∧
    log w' = log w1 ++ [EWriteHeader 503; EWrite err].
Proof.
  intros Hv Hlook Hcodec Hst.
  unfold Http.serveBulk. cbv zeta.
  case_bool_decide; [done|]. rewrite Hlook.
  run. rewrite Hcodec. unfold Http.service_unavailable. run.
  eexists. split; [reflexivity|]. simpl. rewrite Hst. simpl.
  rewrite <- !app_assoc. repeat split; reflexivity.
Qed.

Lemma codec_failure_answers_503_witness :
  ∃ w',
    Http.serveBulk (sample_handler 0 failing_codec) v2_request
      (fresh_world [] 0 true (λ _, true) 0) = Done tt w' ∧
    status (resp w') = Some 503 ∧
    written (resp w') =
      written (resp (emit (ECodec "2.0") (fresh_world [] 0 true (λ _, true) 0)))
      ++ [Plain "no codec"] ∧
    ch w' = ch (emit (ECodec "2.0") (fresh_world [] 0 true (λ _, true) 0)) ∧
    next_gate w' = next_gate (emit (ECodec "2.0") (fresh_world [] 0 true (λ _, true) 0)) ∧
    log w' = log (emit (ECodec "2.0") (fresh_world [] 0 true (λ _, true) 0))
             ++ [EWriteHeader 503; EWrite "no codec"].
Proof.
  apply (codec_failure_answers_503 (sample_handler 0 failing_codec) v2_request
           failing_codec "no codec" (fresh_world [] 0 true (λ _, true) 0)
           (emit (ECodec "2.0") (fresh_world [] 0 true (λ _, true) 0)));
    first [reflexivity | vm_compute; discriminate | vm_compute; reflexivity].
Defined.

(** X2: when the batch cannot be read, the handler answers 503 with the
    error text as the body; the ingestion channel is as the reader left
    it and no acknowledgment is written. *)
Theorem read_failure_answers_503 (h : Http.httpHandler) (requ : Request)
    (handler : Http.codec) rd wr (err : string) (w w1 w2 : world) :
  Header_Get (ReqHeader requ) "X-Lumberjack-Version" ≠ "" →
  Http.versions h !! Header_Get (ReqHeader requ) "X-Lumberjack-Version" = Some handler →
  handler (Http.mkConn requ)
    (emit (ECodec (Header_Get (ReqHeader requ) "X-Lumberjack-Version")) w)
    = Done (inr (rd, wr)) w1 →
  Internal.ReadBatch rd (emit EReadBatch w1) = Done (inl err) w2 →
  status (resp w2) = None →
  ∃ w',
    Http.serveBulk h requ w = Done tt w' ∧
    status (resp w') = Some 503 ∧
    written (resp w') = written (resp w2) ++ [Plain err] ∧
    ch w' = ch w2 ∧
    log w' = log w2 ++ [EWriteHeader 503; EWrite err].
Proof.
  intros Hv Hlook Hcodec Hread Hst.
  unfold Http.serveBulk. cbv zeta.
  case_bool_decide; [done|]. rewrite Hlook.
  run. rewrite Hcodec. simpl.
  destruct (bool_decide (0 < Http.keepalive (Http.opts h))%Z && Internal.HasKeepalive wr);
    [destruct (is_flusher (resp w1))|]; simpl; rewrite Hread;
    unfold Http.service_unavailable; run;
    (eexists; split; [reflexivity|]); simpl; rewrite Hst; simpl;
    rewrite <- !app_assoc; repeat split; reflexivity.
Qed.

Lemma read_failure_answers_503_witness :
  ∃ w',
    Http.serveBulk (sample_handler 0 unreadable_codec) v2_request
      (fresh_world [] 0 true (λ _, true) 0) = Done tt w' ∧
    status (resp w') = Some 503 ∧
    written (resp w') = [] ++ [Plain "unexpected EOF"] ∧
    ch w' = [] ∧
    log w' = [ECodec "2.0"; EReadBatch] ++ [EWriteHeader 503; EWrite "unexpected EOF"].
Proof.
  apply (read_failure_answers_503 (sample_handler 0 unreadable_codec) v2_request
           unreadable_codec
           (Internal.mkBatchReader (mret (inl "unexpected EOF")))
           (Http.v2_ACKWriter (Http.mkConn v2_request))
           "unexpected EOF" (fresh_world [] 0 true (λ _, true) 0)
           (emit (ECodec "2.0") (fresh_world [] 0 true (λ _, true) 0))
           (emit EReadBatch (emit (ECodec "2.0") (fresh_world [] 0 true (λ _, true) 0))));
    first [reflexivity | vm_compute; discriminate | vm_compute; reflexivity].
Defined.

Lemma keepalive_off (h : Http.httpHandler) wr (w1 : world) :
  (Http.keepalive (Http.opts h) ≤ 0)%Z ∨ Internal.HasKeepalive wr = false ∨
    is_flusher (resp w1) = false →
  bool_decide (0 < Http.keepalive (Http.opts h))%Z && Internal.HasKeepalive wr
    && is_flusher (resp w1) = false.
Proof.
  intros [H|[H|H]].
  - by rewrite bool_decide_eq_false_2 by lia.
  - rewrite H. by rewrite andb_false_r.
  - rewrite H. by rewrite andb_false_r.
Qed.

(** X3: without keepalive (the interval is zero, or the
    acknowledgment-writer has none, or the response cannot be flushed) the
    handler puts the batch on the ingestion channel and waits on its gate:
    while the consumer has not completed the batch the request stays
    there and nothing has been acknowledged; once it is completed the
    handler calls ACK with the number of events of the batch. *)
Theorem ack_waits_for_the_gate (h : Http.httpHandler) (requ : Request)
    (handler : Http.codec) rd wr b (w w1 w2 : world) :
  Header_Get (ReqHeader requ) "X-Lumberjack-Version" ≠ "" →
  Http.versions h !! Header_Get (ReqHeader requ) "X-Lumberjack-Version" = Some handler →
  handler (Http.mkConn requ)
    (emit (ECodec (Header_Get (ReqHeader requ) "X-Lumberjack-Version")) w)
    = Done (inr (rd, wr)) w1 →
  Internal.ReadBatch rd (emit EReadBatch w1) = Done (inr b) w2 →
  (Http.keepalive (Http.opts h) ≤ 0)%Z ∨ Internal.HasKeepalive wr = false ∨
    is_flusher (resp w1) = false →
  ∃ w3,
    ch w3 = ch w2 ++ [b] ∧
    log w3 = log w2 ++ [EEnqueue b] ∧
    written (resp w3) = written (resp w2) ∧
    header (resp w3) =
      Header_Add (Header_Add (header (resp w2)) "Content-Type" "application/lumberjack")
        "X-Lumberjack-Version" (Header_Get (ReqHeader requ) "X-Lumberjack-Version") ∧
    Http.serveBulk h requ w =
      if completes w2 (gate b)
      then (Internal.ACK wr (Z.of_nat (length (Events b))) ;; mret tt) (emit (EAwait b) w3)
      else Parked w3.
Proof.
  intros Hv Hlook Hcodec Hread Hoff.
  rewrite (serveBulk_accepts h requ handler rd wr b w w1 w2 Hv Hlook Hcodec Hread).
  rewrite (keepalive_off h wr w1 Hoff).
  eexists. split_and!; [| | | |run; unfold Await; simpl; destruct (completes w2 (gate b)); reflexivity];
    reflexivity.
Qed.

Lemma ack_waits_for_the_gate_witness :
  ∃ w3,
    ch w3 = [] ++ [mkBatch [VStr "a"] 0] ∧
    log w3 = [ECodec "2.0"; EReadBatch] ++ [EEnqueue (mkBatch [VStr "a"] 0)] ∧
    written (resp w3) = [] ∧
    header (resp w3) =
      Header_Add (Header_Add ∅ "Content-Type" "application/lumberjack")
        "X-Lumberjack-Version" "2.0" ∧
    Http.serveBulk (sample_handler 0 (Http.v2_MakeIOHandler [VStr "a"])) v2_request
      (fresh_world [] 0 true (λ _, false) 0) =
      if false
      then (Internal.ACK (Http.v2_ACKWriter (Http.mkConn v2_request))
              (Z.of_nat (length (Events (mkBatch [VStr "a"] 0)))) ;; mret tt)
             (emit (EAwait (mkBatch [VStr "a"] 0)) w3)
      else Parked w3.
Proof.
  apply (ack_waits_for_the_gate (sample_handler 0 (Http.v2_MakeIOHandler [VStr "a"]))
           v2_request (Http.v2_MakeIOHandler [VStr "a"])
           (Http.v2_BatchReader [VStr "a"]) (Http.v2_ACKWriter (Http.mkConn v2_request))
           (mkBatch [VStr "a"] 0)
           (fresh_world [] 0 true (λ _, false) 0)
           (emit (ECodec "2.0") (fresh_world [] 0 true (λ _, false) 0))
           (mkWorld (fresh_response true) [] [] 1 1 [ECodec "2.0"; EReadBatch] (λ _, false) 0)).
  - vm_compute. discriminate.
  - reflexivity.
  - reflexivity.
  - reflexivity.
  - left. simpl. lia.
Defined.

Lemma iter_shift {A} (f : A → A) k x : Nat.iter k f (f x) = f (Nat.iter k f x).
Proof. induction k as [|k IH]; simpl; [done|]. by rewrite IH. Qed.

Lemma keepalive_loop_counts wr b (kf : world → world) :
  (∀ w, Internal.Keepalive wr 0 w = Done None (kf w)) →
  (∀ w, completes (kf w) = completes w) →
  ∀ k w,
  Http.keepalive_loop wr b k w =
    if completes w (gate b)
    then Done true (emit (EAwait b) (Nat.iter k kf w))
    else Parked (Nat.iter k kf w).
Proof.
  intros Hka Hc k. induction k as [|k IH]; intros w.
  - simpl. run. unfold Await. by destruct (completes w (gate b)).
  - simpl. run. rewrite Hka. simpl. rewrite IH, Hc, iter_shift. reflexivity.
Qed.

(** X4: with keepalive on and an acknowledgment-writer whose keepalive
    writes succeed, the handler calls Keepalive(0) once for every time
    the timer goes off before the gate closes, then acknowledges the whole
    batch; while the consumer has not completed it, nothing is
    acknowledged. *)
Theorem keepalives_then_ack (h : Http.httpHandler) (requ : Request)
    (handler : Http.codec) rd wr b (kf : world → world) (w w1 w2 : world) :
  Header_Get (ReqHeader requ) "X-Lumberjack-Version" ≠ "" →
  Http.versions h !! Header_Get (ReqHeader requ) "X-Lumberjack-Version" = Some handler →
  handler (Http.mkConn requ)
    (emit (ECodec (Header_Get (ReqHeader requ) "X-Lumberjack-Version")) w)
    = Done (inr (rd, wr)) w1 →
  Internal.ReadBatch rd (emit EReadBatch w1) = Done (inr b) w2 →
  (0 < Http.keepalive (Http.opts h))%Z →
  Internal.HasKeepalive wr = true →
  is_flusher (resp w1) = true →
  (∀ w, Internal.Keepalive wr 0 w = Done None (kf w)) →
  (∀ w, completes (kf w) = completes w) →
  ∃ w3,
    ch w3 = ch w2 ++ [b] ∧
    log w3 = log w2 ++ [EEnqueue b] ∧
    written (resp w3) = written (resp w2) ∧
    header (resp w3) =
      Header_Add (Header_Add (header (resp w2)) "Content-Type" "application/lumberjack")
        "X-Lumberjack-Version" (Header_Get (ReqHeader requ) "X-Lumberjack-Version") ∧
    Http.serveBulk h requ w =
      if completes w2 (gate b)
      then (Internal.ACK wr (Z.of_nat (length (Events b))) ;; mret tt)
             (emit (EAwait b) (Nat.iter (ticks w2) kf w3))
      else Parked (Nat.iter (ticks w2) kf w3).
Proof.
  intros Hv Hlook Hcodec Hread Hpos Hhas Hfl Hka Hc.
  rewrite (serveBulk_accepts h requ handler rd wr b w w1 w2 Hv Hlook Hcodec Hread).
  rewrite Hhas, Hfl, bool_decide_eq_true_2 by done.
  eexists. split_and!; [| | | |]; last first.
  { run.
    rewrite (keepalive_loop_counts (Http.chunked (Http.mkChunked wr)) b kf).
    - simpl. destruct (completes w2 (gate b)); reflexivity.
    - intros w0. simpl. by apply chunkedACKWriter_Keepalive_ok.
    - exact Hc. }
  all: reflexivity.
Qed.

Lemma keepalives_then_ack_witness :
  ∃ w3,
    ch w3 = [] ++ [mkBatch [VStr "a"; VStr "b"] 0] ∧
    log w3 = [ECodec "2.0"; EReadBatch] ++ [EEnqueue (mkBatch [VStr "a"; VStr "b"] 0)] ∧
    written (resp w3) = [] ∧
    header (resp w3) =
      Header_Add (Header_Add ∅ "Content-Type" "application/lumberjack")
        "X-Lumberjack-Version" "2.0" ∧
    Http.serveBulk keepalive_handler v2_request (fresh_world [] 0 true (λ _, true) 3) =
      if true
      then (Internal.ACK (Http.v2_ACKWriter (Http.mkConn v2_request)) 2 ;; mret tt)
             (emit (EAwait (mkBatch [VStr "a"; VStr "b"] 0)) (Nat.iter 3 keepalive_written w3))
      else Parked (Nat.iter 3 keepalive_written w3).
Proof.
  apply (keepalives_then_ack keepalive_handler v2_request
           (Http.v2_MakeIOHandler [VStr "a"; VStr "b"])
           (Http.v2_BatchReader [VStr "a"; VStr "b"])
           (Http.v2_ACKWriter (Http.mkConn v2_request))
           (mkBatch [VStr "a"; VStr "b"] 0)
           keepalive_written
           (fresh_world [] 0 true (λ _, true) 3)
           (emit (ECodec "2.0") (fresh_world [] 0 true (λ _, true) 3))
           (mkWorld (fresh_response true) [] [] 1 1 [ECodec "2.0"; EReadBatch] (λ _, true) 3)).
  - vm_compute. discriminate.
  - reflexivity.
  - reflexivity.
  - reflexivity.
  - simpl. lia.
  - reflexivity.
  - reflexivity.
  - intros w. reflexivity.
  - intros w. reflexivity.
Defined.

Lemma keepalive_loop_fails wr b e (kf : world → world) k w :
  Internal.Keepalive wr 0 w = Done (Some e) (kf w) →
  Http.keepalive_loop wr b (S k) w = Done false (kf w).
Proof. intros Hka. simpl. run. by rewrite Hka. Qed.

(** X5: with keepalive on, when the first keepalive write fails the
    handler flushes the response and returns: the batch is on the
    ingestion channel, but its gate is not waited for and no
    acknowledgment is written. *)
Theorem failed_keepalive_ends_request (h : Http.httpHandler) (requ : Request)
    (handler : Http.codec) rd wr b (e : string) (kf : world → world) (k : nat)
    (w w1 w2 : world) :
  Header_Get (ReqHeader requ) "X-Lumberjack-Version" ≠ "" →
  Http.versions h !! Header_Get (ReqHeader requ) "X-Lumberjack-Version" = Some handler →
  handler (Http.mkConn requ)
    (emit (ECodec (Header_Get (ReqHeader requ) "X-Lumberjack-Version")) w)
    = Done (inr (rd, wr)) w1 →
  Internal.ReadBatch rd (emit EReadBatch w1) = Done (inr b) w2 →
  (0 < Http.keepalive (Http.opts h))%Z →
  Internal.HasKeepalive wr = true →
  is_flusher (resp w1) = true →
  ticks w2 = S k →
  (∀ w, Internal.Keepalive wr 0 w = Done (Some e) (kf w)) →
  ∃ w3,
    ch w3 = ch w2 ++ [b] ∧
    log w3 = log w2 ++ [EEnqueue b] ∧
    written (resp w3) = written (resp w2) ∧
    Http.serveBulk h requ w = resp_Flush (kf w3).
Proof.
  intros Hv Hlook Hcodec Hread Hpos Hhas Hfl Hk Hka.
  rewrite (serveBulk_accepts h requ handler rd wr b w w1 w2 Hv Hlook Hcodec Hread).
  rewrite Hhas, Hfl, bool_decide_eq_true_2 by done.
  eexists. split_and!; [| | |]; last first.
  { run. rewrite Hk.
    rewrite (keepalive_loop_fails (Http.chunked (Http.mkChunked wr)) b e
               (λ w, emit EFlush (set_resp (λ r, let r := implicit_status r in
                  mkResponse (header r) (status r) (sent_header r) (written r)
                    (length (written r)) (is_flusher r)) (kf w)))).
    - reflexivity.
    - simpl. unfold Http.chunkedACKWriter_Keepalive. run. rewrite Hka. reflexivity. }
  all: reflexivity.
Qed.

Lemma failed_keepalive_ends_request_witness :
  ∃ w3,
    ch w3 = [] ++ [mkBatch [VStr "a"] 0] ∧
    log w3 = [ECodec "2.0"; EReadBatch] ++ [EEnqueue (mkBatch [VStr "a"] 0)] ∧
    written (resp w3) = [] ∧
    Http.serveBulk (sample_handler 100000000 (broken_pipe_codec [VStr "a"])) v2_request
      (fresh_world [] 0 true (λ _, true) 2) = resp_Flush (id w3).
Proof.
  apply (failed_keepalive_ends_request
           (sample_handler 100000000 (broken_pipe_codec [VStr "a"])) v2_request
           (broken_pipe_codec [VStr "a"])
           (Http.v2_BatchReader [VStr "a"])
           (Internal.mkACKWriter true (λ _, mret (Some "broken pipe"))
              (Internal.ACK (Http.v2_ACKWriter (Http.mkConn v2_request))))
           (mkBatch [VStr "a"] 0) "broken pipe" id 1
           (fresh_world [] 0 true (λ _, true) 2)
           (emit (ECodec "2.0") (fresh_world [] 0 true (λ _, true) 2))
           (mkWorld (fresh_response true) [] [] 1 1 [ECodec "2.0"; EReadBatch] (λ _, true) 2)).
  - vm_compute. discriminate.
  - reflexivity.
  - reflexivity.
  - reflexivity.
  - simpl. lia.
  - reflexivity.
  - reflexivity.
  - reflexivity.
  - intros w. reflexivity.
Defined.

(** ** The options of server/http *)

Lemma apply_each_accepts (l : list setting) : ∀ o,
  Forall (λ s, (0 ≤ setting_value s)%Z) l →
  Http.apply_each (map setting_option l) o = (foldl settle o l, None).
Proof.
  induction l as [|s l IH]; intros o Hl; simpl; [done|].
  inversion Hl as [|? ? Hs Hl']; subst.
  destruct s as [v|v]; simpl in *; unfold Http.Timeout, Http.Keepalive;
    rewrite bool_decide_eq_false_2 by lia; by apply IH.
Qed.

Lemma apply_each_invariant (l : list setting) : ∀ o o',
  (0 ≤ Http.timeout o)%Z → (0 ≤ Http.keepalive o)%Z →
  Http.apply_each (map setting_option l) o = (o', None) →
  (0 ≤ Http.timeout o')%Z ∧ (0 ≤ Http.keepalive o')%Z ∧
  Forall (λ s, (0 ≤ setting_value s)%Z) l.
Proof.
  induction l as [|s l IH]; intros o o' Ht Hk H; simpl in H.
  - injection H as <-. split_and!; auto.
  - destruct s as [v|v]; simpl in H; unfold Http.Timeout, Http.Keepalive in H;
      case_bool_decide; try discriminate;
      apply IH in H; simpl; try lia; try assumption;
      destruct H as (? & ? & ?); split_and!; try assumption;
      constructor; simpl; try lia; assumption.
Qed.

(** X6: options that [applyOptions] accepts are never negative: when it
    returns no error, the timeout and the keepalive interval it returns
    are not negative, no setting given was negative, and the options are
    the defaults (30s, 3s) overwritten by the settings in the order
    given. *)
Theorem accepted_options_are_not_negative (l : list setting) (o : Http.options) :
  Http.applyOptions (map setting_option l) = (o, None) →
  (0 ≤ Http.timeout o)%Z ∧ (0 ≤ Http.keepalive o)%Z ∧
  Forall (λ s, (0 ≤ setting_value s)%Z) l ∧
  o = foldl settle default_options l.
Proof.
  intros H. unfold Http.applyOptions in H.
  pose proof H as H'.
  apply apply_each_invariant in H' as (Ht & Hk & Hl);
    [|unfold Http.second; simpl; lia..].
  split_and!; try assumption.
  rewrite (apply_each_accepts l _ Hl) in H. by injection H.
Qed.

Lemma accepted_options_are_not_negative_witness :
  (0 ≤ Http.timeout (Http.mkOptions 5 0))%Z ∧ (0 ≤ Http.keepalive (Http.mkOptions 5 0))%Z ∧
  Forall (λ s, (0 ≤ setting_value s)%Z) [SetKeepalive 7; SetTimeout 5; SetKeepalive 0] ∧
  Http.mkOptions 5 0 = foldl settle default_options [SetKeepalive 7; SetTimeout 5; SetKeepalive 0].
Proof.
  apply (accepted_options_are_not_negative
           [SetKeepalive 7; SetTimeout 5; SetKeepalive 0] (Http.mkOptions 5 0)).
  reflexivity.
Defined.

(** X7: the first negative setting ends [applyOptions]: it returns that
    setting's error with the options as the settings before it left them;
    the negative value is not stored and the settings after it are not
    looked at. *)
Theorem first_negative_setting_is_the_error (l1 l2 : list setting) (s : setting) :
  Forall (λ s, (0 ≤ setting_value s)%Z) l1 →
  (setting_value s < 0)%Z →
  Http.applyOptions (map setting_option (l1 ++ s :: l2)) =
    (foldl settle default_options l1, Some (setting_error s)).
Proof.
  intros Hl Hs. unfold Http.applyOptions. fold default_options.
  generalize default_options as o. revert Hl.
  induction l1 as [|s1 l1 IH]; intros Hl o; simpl.
  - destruct s as [v|v]; simpl in *; unfold Http.Timeout, Http.Keepalive;
      by rewrite bool_decide_eq_true_2 by lia.
  - inversion Hl as [|? ? Hs1 Hl']; subst.
    destruct s1 as [v|v]; simpl in *; unfold Http.Timeout, Http.Keepalive;
      rewrite bool_decide_eq_false_2 by lia; by apply IH.
Qed.

Lemma first_negative_setting_is_the_error_witness :
  Http.applyOptions
    (map setting_option ([SetTimeout 5] ++ SetKeepalive (-1) :: [SetTimeout 9])) =
    (foldl settle default_options [SetTimeout 5], Some (setting_error (SetKeepalive (-1)))).
Proof.
  apply (first_negative_setting_is_the_error [SetTimeout 5] [SetTimeout 9] (SetKeepalive (-1))).
  - repeat constructor; simpl; lia.
  - simpl. lia.
Defined.

(** X8: the handler [newServer] sets up serves version 2.0 only: a
    request with any other version header gets 400 Bad Request and no
    codec is made, nothing is read and nothing is put on the ingestion
    channel. *)
Theorem only_version_2_is_served (own : bool) (cfg : Http.options) (v2 : Http.codec)
    (requ : Request) (w : world) :
  Header_Get (ReqHeader requ) "X-Lumberjack-Version" ≠ "2.0" →
  status (resp w) = None →
  ∃ w',
    Http.serveBulk (Http.newHandler own cfg v2) requ w = Done tt w' ∧
    status (resp w') = Some 400 ∧
    written (resp w') = written (resp w) ∧
    ch w' = ch w ∧
    body_reads w' = body_reads w ∧
    log w' = log w ++ [EWriteHeader 400].
Proof.
  intros Hv Hst.
  assert (Http.serveBulk (Http.newHandler own cfg v2) requ w = resp_WriteHeader 400 w) as ->.
  { unfold Http.serveBulk. cbv zeta. case_bool_decide; [done|].
    unfold Http.newHandler. simpl. by rewrite lookup_singleton_ne. }
  run. eexists. split; [reflexivity|]. simpl. rewrite Hst. done.
Qed.

Lemma only_version_2_is_served_witness :
  ∃ w',
    Http.serveBulk (Http.newHandler true default_options (Http.v2_MakeIOHandler []))
      (mkRequest "POST" {[ "X-Lumberjack-Version" := ["1"] ]} (mkBody [] (inr [])) "host" "peer")
      (fresh_world [] 0 true (λ _, true) 0) = Done tt w' ∧
    status (resp w') = Some 400 ∧
    written (resp w') = written (resp (fresh_world [] 0 true (λ _, true) 0)) ∧
    ch w' = ch (fresh_world [] 0 true (λ _, true) 0) ∧
    body_reads w' = body_reads (fresh_world [] 0 true (λ _, true) 0) ∧
    log w' = log (fresh_world [] 0 true (λ _, true) 0) ++ [EWriteHeader 400].
Proof.
  apply (only_version_2_is_served true default_options (Http.v2_MakeIOHandler [])
           (mkRequest "POST" {[ "X-Lumberjack-Version" := ["1"] ]} (mkBody [] (inr [])) "host" "peer")
           (fresh_world [] 0 true (λ _, true) 0)).
  - vm_compute. discriminate.
  - reflexivity.
Defined.

(** ** The ES-bulk handler: what has gone out stays *)

Lemma ends_in_bind {A B} (P Q R : world → Prop) (m : M A) (f : A → M B) :
  ends_in P m Q → (∀ a, ends_in Q (f a) R) → (∀ w, Q w → R w) →
  ends_in P (m ≫= f) R.
Proof.
  intros Hm Hf HQR w Hw. unfold mbind, M_bind.
  specialize (Hm w Hw). destruct (m w) as [a w'|w'|w']; simpl in *; auto.
  by apply Hf.
Qed.

Lemma keeps_bind {A B} (P : world → Prop) (m : M A) (f : A → M B) :
  ends_in P m P → (∀ a, ends_in P (f a) P) → ends_in P (m ≫= f) P.
Proof. intros Hm Hf. by apply (ends_in_bind P P P). Qed.

Lemma keeps_ret {A} (P : world → Prop) (a : A) : ends_in P (mret a) P.
Proof. by intros w Hw. Qed.

Lemma keeps_modify (P : world → Prop) (f : world → world) :
  (∀ w, P w → P (f w)) → ends_in P (modify f) P.
Proof. intros H w Hw. by apply H. Qed.

Lemma keeps_defer {A} (P : world → Prop) (d : M unit) (body : M A) :
  ends_in P body P → ends_in P d P → ends_in P (defer d body) P.
Proof.
  intros Hb Hd w Hw. unfold defer.
  specialize (Hb w Hw). destruct (body w) as [a w'|w'|w']; simpl in *; auto.
  - specialize (Hd w' Hb). unfold mbind, M_bind.
    destruct (d w') as [[] w''|w''|w'']; simpl in *; auto.
  - specialize (Hd w' Hb). destruct (d w') as [[] w''|w''|w'']; simpl in *; auto.
Qed.

Lemma status_sent_wput code hd wr s w :
  status_sent code hd w → status_sent code hd (emit (EWrite s) (set_resp (wput wr s) w)).
Proof.
  intros [Hs Hh]. unfold status_sent.
  destruct wr; simpl; unfold put_chunk, Es.gz_Write, implicit_status; rewrite Hs; simpl; auto.
Qed.

Lemma keeps_writer_Write code hd wr s :
  ends_in (status_sent code hd) (Es.writer_Write wr s) (status_sent code hd).
Proof. intros w Hw. rewrite writer_Write_run. simpl. by apply status_sent_wput. Qed.

Lemma keeps_write_more code hd wr k :
  ends_in (status_sent code hd) (Es.write_more wr k) (status_sent code hd).
Proof.
  induction k as [|k IH]; simpl; [apply keeps_ret|].
  apply keeps_bind; [apply keeps_writer_Write|]. intros _. exact IH.
Qed.

Lemma keeps_Await code hd b :
  ends_in (status_sent code hd) (Await b) (status_sent code hd).
Proof. intros w Hw. unfold Await. by destruct (completes w (gate b)). Qed.

Lemma keeps_drain_one code hd h wr first i :
  ends_in (status_sent code hd) (Es.drain_one h wr first i) (status_sent code hd).
Proof.
  unfold Es.drain_one.
  apply keeps_bind; [by apply keeps_modify|]. intros _.
  destruct (Es.silent h); [apply keeps_ret|].
  case_bool_decide; [apply keeps_ret|].
  apply keeps_bind.
  - destruct first; [|apply keeps_ret].
    apply keeps_bind; [apply keeps_writer_Write|]. intros _. apply keeps_ret.
  - intros [f i0].
    apply keeps_bind; [apply keeps_write_more|]. intros _.
    apply keeps_bind; [apply keeps_Await|]. intros _. apply keeps_ret.
Qed.

Lemma keeps_drain_loop code hd h wr infos : ∀ first,
  ends_in (status_sent code hd) (Es.drain_loop h wr first infos) (status_sent code hd).
Proof.
  induction infos as [|i infos IH]; intros first; simpl; [apply keeps_ret|].
  apply keeps_bind; [apply keeps_drain_one|]. intros f. apply IH.
Qed.

Lemma keeps_drain code hd h wr :
  ends_in (status_sent code hd) (Es.drain h wr) (status_sent code hd).
Proof. intros w Hw. unfold Es.drain. by apply keeps_drain_loop. Qed.

(** The decode loop does not touch the response, the ingestion channel or
    the log, however it ends. *)
Lemma decode_loop_leaves_response h dec : ∀ ev ms w,
  resp (world_of (Es.decode_loop h dec ev ms w)) = resp w ∧
  ch (world_of (Es.decode_loop h dec ev ms w)) = ch w ∧
  log (world_of (Es.decode_loop h dec ev ms w)) = log w.
Proof.
  induction dec as [|x|x y dec IH] using list_pair_ind; intros ev ms w.
  - done.
  - by destruct x.
  - destruct x as [mt|e]; [|done].
    destruct y as [[m|]|e]; [|done|done].
    simpl. run. case_bool_decide.
    + unfold make. case_bool_decide; simpl; [done|].
      match goal with |- context [Es.decode_loop h dec ?e ?m ?w0] =>
        destruct (IH e m w0) as (-> & -> & ->) end. done.
    + match goal with |- context [Es.decode_loop h dec ?e ?m ?w0] =>
        destruct (IH e m w0) as (-> & -> & ->) end. done.
Qed.

Lemma keeps_decode_loop code hd h dec ev ms :
  ends_in (status_sent code hd) (Es.decode_loop h dec ev ms) (status_sent code hd).
Proof.
  intros w [Hs Hh]. unfold status_sent.
  destruct (decode_loop_leaves_response h dec ev ms w) as (-> & _). done.
Qed.

(** The handler from the status line on. *)
Lemma serveBulk_stream_sends_200 h dec wr w :
  (0 ≤ Es.split h)%Z → status (resp w) = None →
  status_sent 200 (Header_Add (header (resp w)) "Content-Type" "application/json")
    (world_of (Es.serveBulk_stream h dec wr w)).
Proof.
  intros Hsplit Hst. unfold Es.serveBulk_stream.
  unfold mbind at 1 2. unfold M_bind at 1 2. rewrite !make_ok by done.
  set (hd := Header_Add (header (resp w)) "Content-Type" "application/json").
  unfold mbind at 1 2. unfold M_bind at 1 2. simpl.
  match goal with |- status_sent _ _ (world_of (?m ?w1)) =>
    assert (ends_in (status_sent 200 hd) m (status_sent 200 hd)) as Hk;
      [|apply (Hk w1); split; simpl; rewrite Hst; reflexivity] end.
  apply keeps_bind; [apply keeps_writer_Write|]. intros _.
  apply keeps_bind; [apply keeps_decode_loop|]. intros [[ev ms] err].
  apply keeps_bind.
  { case_bool_decide; [|apply keeps_ret].
    apply keeps_bind; [by intros w0 Hw0|]. intros b. by apply keeps_modify. }
  intros _. apply keeps_bind; [apply keeps_drain|]. intros _.
  apply keeps_writer_Write.
Qed.

Lemma keeps_gz_Close code hd :
  ends_in (status_sent code hd) Es.gz_Close (status_sent code hd).
Proof.
  intros w [Hs Hh]. unfold status_sent. simpl.
  unfold Es.gz_Write, implicit_status. rewrite Hs. simpl. auto.
Qed.

Lemma serveBulk_body_sends_200 h requ dec wr w :
  Es.body_docs requ = inr dec → (0 ≤ Es.split h)%Z → status (resp w) = None →
  status_sent 200 (Header_Add (header (resp w)) "Content-Type" "application/json")
    (world_of (Es.serveBulk_body h requ wr w)).
Proof.
  intros Hdocs Hsplit Hst. unfold Es.serveBulk_body.
  destruct (open_reader_run requ w) as [r Hr].
  unfold mbind, M_bind. rewrite Hr, Hdocs.
  by apply (serveBulk_stream_sends_200 h dec wr
              (mkWorld (resp w) (batches w) (ch w) (next_gate w) r (log w)
                 (completes w) (ticks w))).
Qed.

Lemma serveBulk_sends_200 h requ dec w :
  Es.body_docs requ = inr dec → (0 ≤ Es.split h)%Z → status (resp w) = None →
  status_sent 200
    (Header_Add
       (if accepts_gzip requ
        then Header_Add (header (resp w)) "Content-Encoding" "gzip"
        else header (resp w))
       "Content-Type" "application/json")
    (world_of (Es.serveBulk h requ w)).
Proof.
  intros Hdocs Hsplit Hst. unfold Es.serveBulk. fold (accepts_gzip requ).
  destruct (accepts_gzip requ).
  - set (w1 := set_resp (λ r, mkResponse (Header_Add (header r) "Content-Encoding" "gzip")
                                (status r) (sent_header r) (written r) (seen r)
                                (is_flusher r)) w).
    pose proof (serveBulk_body_sends_200 h requ dec Es.WGzip w1 Hdocs Hsplit Hst) as Hb.
    unfold defer. unfold mbind at 1. unfold M_bind at 1. simpl. fold w1.
    destruct (Es.serveBulk_body h requ Es.WGzip w1) as [[] w'|w'|w']; simpl in *; [| done |].
    + by apply (keeps_gz_Close 200 _ w').
    + by apply (keeps_gz_Close 200 _ w').
  - by apply (serveBulk_body_sends_200 h requ dec).
Qed.

(** X9: the status line of a bulk request goes out before the first
    document is decoded and nothing changes it afterwards: however the
    handler ends (it returns, it waits for a consumer that never completes
    a batch, or it panics), the response has status 200 and went out with
    Content-Type application/json, and Content-Encoding gzip exactly when
    the request accepts gzip. *)
Theorem status_200_goes_out_before_decoding
    (h : Es.httpHandler) (requ : Request) (dec : list dec_item) (hd : Header) :
  Method requ = "POST" →
  Es.body_docs requ = inr dec →
  (0 ≤ Es.split h)%Z →
  ends_in (λ w, status (resp w) = None ∧ header (resp w) = hd)
    (Es.ServeHTTP h requ)
    (status_sent 200
       (Header_Add (if accepts_gzip requ then Header_Add hd "Content-Encoding" "gzip" else hd)
          "Content-Type" "application/json")).
Proof.
  intros Hm Hdocs Hsplit w [Hst <-].
  rewrite (ServeHTTP_POST h requ Hm). by apply (serveBulk_sends_200 h requ dec).
Qed.

Lemma status_200_goes_out_before_decoding_witness :
  ends_in (λ w, status (resp w) = None ∧ header (resp w) = ∅)
    (Es.ServeHTTP (Es.mkHandler false 1 true)
       (gzip_bulk_request (one_doc 1 ++ [DecMap None; DecMap None])))
    (status_sent 200
       (Header_Add
          (if accepts_gzip (gzip_bulk_request (one_doc 1 ++ [DecMap None; DecMap None]))
           then Header_Add ∅ "Content-Encoding" "gzip" else ∅)
          "Content-Type" "application/json")).
Proof.
  apply (status_200_goes_out_before_decoding (Es.mkHandler false 1 true)
           (gzip_bulk_request (one_doc 1 ++ [DecMap None; DecMap None]))
           (one_doc 1 ++ [DecMap None; DecMap None]) ∅).
  - reflexivity.
  - reflexivity.
  - simpl. lia.
Defined.

(** X10: with a negative split every bulk request panics in [make],
    before the status line: nothing is put on the ingestion channel, and
    without gzip nothing at all has happened to the response. *)
Theorem negative_split_panics (h : Es.httpHandler) (requ : Request)
    (dec : list dec_item) (w : world) :
  Es.body_docs requ = inr dec →
  (Es.split h < 0)%Z →
  ∃ w',
    Es.serveBulk h requ w = Panicked w' ∧
    ch w' = ch w ∧ log w' = log w ∧
    (accepts_gzip requ = false → resp w' = resp w).
Proof.
  intros Hdocs Hsplit.
  assert (Hbody : ∀ wr w0, ∃ r, Es.serveBulk_body h requ wr w0 =
            Panicked (mkWorld (resp w0) (batches w0) (ch w0) (next_gate w0) r (log w0)
                        (completes w0) (ticks w0))).
  { intros wr w0. destruct (open_reader_run requ w0) as [r Hr]. exists r.
    unfold Es.serveBulk_body. unfold mbind, M_bind. rewrite Hr, Hdocs.
    unfold Es.serveBulk_stream, make. rewrite bool_decide_eq_true_2 by done.
    reflexivity. }
  unfold Es.serveBulk. fold (accepts_gzip requ).
  destruct (accepts_gzip requ).
  - unfold defer. unfold mbind at 1. unfold M_bind at 1. simpl.
    match goal with |- context [Es.serveBulk_body h requ Es.WGzip ?w0] =>
      destruct (Hbody Es.WGzip w0) as [r ->] end.
    simpl. eexists. split; [reflexivity|]. simpl. done.
  - destruct (Hbody Es.WResp w) as [r ->].
    eexists. split; [reflexivity|]. simpl. done.
Qed.

Lemma negative_split_panics_witness :
  ∃ w',
    Es.serveBulk (Es.mkHandler false (-1) true) (bulk_request (one_doc 1))
      (fresh_world [] 0 true (λ _, true) 0) = Panicked w' ∧
    ch w' = ch (fresh_world [] 0 true (λ _, true) 0) ∧
    log w' = log (fresh_world [] 0 true (λ _, true) 0) ∧
    (accepts_gzip (bulk_request (one_doc 1)) = false →
     resp w' = resp (fresh_world [] 0 true (λ _, true) 0)).
Proof.
  apply (negative_split_panics (Es.mkHandler false (-1) true) (bulk_request (one_doc 1))
           (one_doc 1) (fresh_world [] 0 true (λ _, true) 0)).
  - reflexivity.
  - simpl. lia.
Defined.

Lemma accepted_after_pairs pairs tail :
  accepted (pairs_docs pairs ++ tail) = map (λ p, (Some p.1, p.2)) pairs ++ accepted tail.
Proof. induction pairs as [|p pairs IH]; simpl; [done|]. by rewrite <- IH. Qed.

Lemma loop_returns_after_pairs pairs tail :
  loop_returns (pairs_docs pairs ++ tail) ↔ loop_returns tail.
Proof. induction pairs as [|p pairs IH]; simpl; done. Qed.

Lemma stops_decoding_accepts_nothing tail :
  stops_decoding tail → accepted tail = [] ∧ loop_returns tail.
Proof. by intros [e rest|mt e rest|mt]. Qed.



(** X12: a decode error is not reported: when a metadata line or a source
    line does not decode, or the input ends after a metadata line, the
    handler still answers 200 with a closed items array; the array has one
    entry for each pair before that point (none in silent mode), those
    events are on the ingestion channel, and what follows in the body,
    and a metadata line left without its source line, is dropped. *)
Theorem decode_error_is_not_reported
    (h : Es.httpHandler) (requ : Request)
    (pairs : list (gmap string value * gmap string value)) (tail : list dec_item)
    (q : list Batch) (n : nat) (fl : bool) (c : nat → bool) (k : nat) :
  Method requ = "POST" →
  Es.body_docs requ = inr (pairs_docs pairs ++ tail) →
  stops_decoding tail →
  (0 ≤ Es.split h)%Z →
  Es.silent h = true ∨ (∀ g, c g = true) →
  ∃ w' bs,
    Es.ServeHTTP h requ (fresh_world q n fl c k) = Done tt w' ∧
    status (resp w') = Some 200 ∧
    ch w' = q ++ bs ∧
    concat (map Events bs) = map pair_event pairs ∧
    out w' = Es.items_open +:+
             items true (if Es.silent h then 0 else length pairs) +:+
             Es.items_close.
Proof.
  intros Hm Hdocs Hstop Hsplit Hc.
  destruct (stops_decoding_accepts_nothing tail Hstop) as [Hacc Hret].
  assert (Hret' : loop_returns (pairs_docs pairs ++ tail))
    by (by apply loop_returns_after_pairs).
  destruct (serveBulk_returns h requ _ q n fl c k Hdocs Hsplit Hret' Hc)
    as (w' & bs & Hrun & Hch & Hev & Hout & _).
  pose proof (serveBulk_sends_200 h requ _ (fresh_world q n fl c k) Hdocs Hsplit eq_refl)
    as [Hs _].
  rewrite Hrun in Hs. simpl in Hs.
  exists w', bs. rewrite (ServeHTTP_POST h requ Hm).
  split_and!; try assumption.
  - rewrite Hev. unfold accepted_events.
    rewrite accepted_after_pairs, Hacc, app_nil_r, map_map. reflexivity.
  - rewrite Hout, accepted_after_pairs, Hacc, app_nil_r, length_map. reflexivity.
Qed.

Lemma decode_error_is_not_reported_witness :
  ∃ w' bs,
    Es.ServeHTTP (Es.mkHandler false 2 true)
      (bulk_request (pairs_docs five_pairs ++ [DecMap None; DecErr "unexpected EOF"]))
      (fresh_world [] 0 true (λ _, true) 0) = Done tt w' ∧
    status (resp w') = Some 200 ∧
    ch w' = [] ++ bs ∧
    concat (map Events bs) = map pair_event five_pairs ∧
    out w' = Es.items_open +:+
             items true (if Es.silent (Es.mkHandler false 2 true) then 0
                         else length five_pairs) +:+
             Es.items_close.
Proof.
  apply (decode_error_is_not_reported (Es.mkHandler false 2 true)
           (bulk_request (pairs_docs five_pairs ++ [DecMap None; DecErr "unexpected EOF"]))
           five_pairs [DecMap None; DecErr "unexpected EOF"]
           [] 0 true (λ _, true) 0).
  - reflexivity.
  - reflexivity.
  - apply stop_at_source.
  - simpl. lia.
  - right. reflexivity.
Defined.

(** X13: the response has the same content with and without gzip: of two
    bulk requests with the same documents, one that accepts gzip and one
    that does not, both are served to the end, the same events go on the
    ingestion channel in the same order, and the bodies have the same
    content (for the first as the content of a gzip stream). *)
Theorem gzip_response_has_the_same_content
    (h : Es.httpHandler) (requ1 requ2 : Request) (dec : list dec_item)
    (q : list Batch) (n : nat) (fl : bool) (c : nat → bool) (k : nat) :
  accepts_gzip requ1 = true →
  accepts_gzip requ2 = false →
  Es.body_docs requ1 = inr dec →
  Es.body_docs requ2 = inr dec →
  (0 ≤ Es.split h)%Z →
  loop_returns dec →
  Es.silent h = true ∨ (∀ g, c g = true) →
  ∃ w1 w2 bs1 bs2,
    Es.serveBulk h requ1 (fresh_world q n fl c k) = Done tt w1 ∧
    Es.serveBulk h requ2 (fresh_world q n fl c k) = Done tt w2 ∧
    ch w1 = q ++ bs1 ∧ ch w2 = q ++ bs2 ∧
    concat (map Events bs1) = concat (map Events bs2) ∧
    out w1 = out w2 ∧
    sent_header (resp w1) !! "Content-Encoding" = Some ["gzip"] ∧
    sent_header (resp w2) !! "Content-Encoding" = None.
Proof.
  intros Hgz1 Hgz2 Hd1 Hd2 Hsplit Hret Hc.
  destruct (serveBulk_returns h requ1 dec q n fl c k Hd1 Hsplit Hret Hc)
    as (w1 & bs1 & Hrun1 & Hch1 & Hev1 & Hout1 & _).
  destruct (serveBulk_returns h requ2 dec q n fl c k Hd2 Hsplit Hret Hc)
    as (w2 & bs2 & Hrun2 & Hch2 & Hev2 & Hout2 & _).
  pose proof (serveBulk_sends_200 h requ1 dec (fresh_world q n fl c k) Hd1 Hsplit eq_refl)
    as [_ Hh1].
  pose proof (serveBulk_sends_200 h requ2 dec (fresh_world q n fl c k) Hd2 Hsplit eq_refl)
    as [_ Hh2].
  rewrite Hrun1, Hgz1 in Hh1. rewrite Hrun2, Hgz2 in Hh2. simpl in Hh1, Hh2.
  exists w1, w2, bs1, bs2. split_and!; try assumption.
  - by rewrite Hev1, Hev2.
  - by rewrite Hout1, Hout2.
  - rewrite Hh1. reflexivity.
  - rewrite Hh2. reflexivity.
Qed.

Lemma gzip_response_has_the_same_content_witness :
  ∃ w1 w2 bs1 bs2,
    Es.serveBulk (Es.mkHandler false 2 true) (gzip_bulk_request (pairs_docs five_pairs))
      (fresh_world [] 0 true (λ _, true) 0) = Done tt w1 ∧
    Es.serveBulk (Es.mkHandler false 2 true) (bulk_request (pairs_docs five_pairs))
      (fresh_world [] 0 true (λ _, true) 0) = Done tt w2 ∧
    ch w1 = [] ++ bs1 ∧ ch w2 = [] ++ bs2 ∧
    concat (map Events bs1) = concat (map Events bs2) ∧
    out w1 = out w2 ∧
    sent_header (resp w1) !! "Content-Encoding" = Some ["gzip"] ∧
    sent_header (resp w2) !! "Content-Encoding" = None.
Proof.
  apply (gzip_response_has_the_same_content (Es.mkHandler false 2 true)
           (gzip_bulk_request (pairs_docs five_pairs))
           (bulk_request (pairs_docs five_pairs)) (pairs_docs five_pairs)
           [] 0 true (λ _, true) 0).
  - reflexivity.
  - reflexivity.
  - reflexivity.
  - reflexivity.
  - simpl. lia.
  - apply loop_returns_pairs.
  - right. reflexivity.
Defined.

(** ** The two goroutines of the ES-bulk handler *)

(** X14: the decode loop and the drain task can interleave in any way the
    channel of capacity 2 allows: every run in which all groups are sent
    and taken leaves the same world (response, ingestion channel, log),
    the one the drain loop leaves when it runs on all groups after the
    decode loop. *)
Theorem every_interleaving_ends_alike (h : Es.httpHandler) (wr : Es.writer)
    (infos : list info) (w : world) (p1 p2 : pipeline) :
  rtc (pipe_step h wr) (mkPipeline infos [] false true w) p1 →
  pipeline_done p1 →
  rtc (pipe_step h wr) (mkPipeline infos [] false true w) p2 →
  pipeline_done p2 →
  drain_world p1 = drain_world p2 ∧
  Es.drain_loop h wr true infos w = Done tt (drain_world p1).
Proof.
  intros Hr1 [Hs1 Hc1] Hr2 [Hs2 Hc2].
  pose proof (pipeline_ends_as_drain_loop h wr infos w p1 Hr1 Hs1 Hc1) as H1.
  pose proof (pipeline_ends_as_drain_loop h wr infos w p2 Hr2 Hs2 Hc2) as H2.
  split; [congruence|exact H1].
Qed.

Lemma every_interleaving_ends_alike_witness :
  drain_world two_groups_drained = drain_world two_groups_drained ∧
  Es.drain_loop (Es.mkHandler false 1 true) Es.WResp true two_groups
    (fresh_world [] 2 true (λ _, true) 0) = Done tt (drain_world two_groups_drained).
Proof.
  apply (every_interleaving_ends_alike (Es.mkHandler false 1 true) Es.WResp two_groups
           (fresh_world [] 2 true (λ _, true) 0) two_groups_drained two_groups_drained).
  - (* both groups are sent before the drain task takes the first *)
    eapply rtc_l; [apply step_send; simpl; lia|]. simpl.
    eapply rtc_l; [apply step_send; simpl; lia|]. simpl.
    eapply rtc_l;
      [apply (step_drain _ _ _ _ _ _ _ false _
                (world_of (Es.drain_one (Es.mkHandler false 1 true) Es.WResp true
                             (mkInfo (mkBatch [VStr "a"] 0) [None])
                             (fresh_world [] 2 true (λ _, true) 0))));
       vm_compute; reflexivity|].
    eapply rtc_l;
      [apply (step_drain _ _ _ _ _ _ _ false _ (drain_world two_groups_drained));
       vm_compute; reflexivity|].
    eapply rtc_l; [apply step_close|].
    vm_compute. apply rtc_refl.
  - split; reflexivity.
  - (* the drain task takes each group as soon as it is sent *)
    eapply rtc_l; [apply step_send; simpl; lia|]. simpl.
    eapply rtc_l;
      [apply (step_drain _ _ _ _ _ _ _ false _
                (world_of (Es.drain_one (Es.mkHandler false 1 true) Es.WResp true
                             (mkInfo (mkBatch [VStr "a"] 0) [None])
                             (fresh_world [] 2 true (λ _, true) 0))));
       vm_compute; reflexivity|].
    eapply rtc_l; [apply step_send; simpl; lia|]. simpl.
    eapply rtc_l; [apply step_close|].
    eapply rtc_l;
      [apply (step_drain _ _ _ _ _ _ _ false _ (drain_world two_groups_drained));
       vm_compute; reflexivity|].
    vm_compute. apply rtc_refl.
  - split; reflexivity.
Defined.

(** ** The push client: reading the response *)

Lemma substring_all b : String.substring 0 (String.length b) b = b.
Proof. induction b as [|a b IH]; simpl; [done|]. by rewrite IH. Qed.

Lemma substring_split b : ∀ k,
  String.substring 0 k b +:+ String.substring k (String.length b - k) b = b.
Proof.
  induction b as [|a b IH]; intros [|k]; simpl; try done.
  - by rewrite string_app_nil_l, substring_all.
  - by rewrite string_app_cons, IH.
Qed.

Lemma substring_length_le b : ∀ k, String.length (String.substring 0 k b) ≤ k.
Proof.
  induction b as [|a b IH]; intros [|k]; simpl; try lia.
  specialize (IH k). lia.
Qed.

Lemma Body_Read_spec k r :
  V2.body r = (V2.Body_Read k r).1.1 +:+ V2.body (V2.Body_Read k r).2 ∧
  String.length (V2.Body_Read k r).1.1 ≤ k ∧
  ((V2.Body_Read k r).1.2 = Some V2.io_EOF → V2.body (V2.Body_Read k r).2 = "") ∧
  ((V2.Body_Read k r).1.2 = Some V2.io_EOF ∨ (V2.Body_Read k r).1.2 = None).
Proof.
  unfold V2.Body_Read. destruct (V2.body r) as [|a b] eqn:Hb; simpl.
  - rewrite Hb. split_and!; auto. lia.
  - split_and!.
    + destruct k as [|k]; simpl.
      * by rewrite string_app_nil_l, substring_all.
      * by rewrite string_app_cons, substring_split.
    + destruct k as [|k]; simpl; [lia|].
      pose proof (substring_length_le b k). lia.
    + destruct (bool_decide _) eqn:Hrest; simpl; [|by destruct (V2.eof_with_data r)].
      intros _. by apply bool_decide_eq_true_1 in Hrest.
    + destruct (_ && _); auto.
Qed.

Lemma Read_spec k c out :
  (V2.Read k (c, out)).1.2 ≠ Some V2.io_EOF ∧
  (V2.Read k (c, out)).2.2 = out ∧
  (is_Some (V2.resp c) →
   remaining c = (V2.Read k (c, out)).1.1 +:+ remaining (V2.Read k (c, out)).2.1 ∧
   String.length (V2.Read k (c, out)).1.1 ≤ k).
Proof.
  unfold V2.Read, remaining. crun.
  destruct (V2.resp c) as [r|]; simpl.
  - destruct (Body_Read_spec k r) as (Hsplit & Hlen & Heof & _).
    destruct (V2.Body_Read k r) as [[data err] r']. simpl in *.
    case_bool_decide; simpl; split_and!; try done.
    intros _. by rewrite Hsplit, Heof.
  - split_and!; try done.
Qed.

(** X15: [Read] never reports the end of the body: whatever the
    connection holds, the error it returns is not [io.EOF], and it sends
    no request. *)
Theorem Read_never_reports_EOF (k : nat) (s : V2.httpConn * list V2.HttpRequest) :
  (V2.Read k s).1.2 ≠ Some V2.io_EOF ∧ (V2.Read k s).2.2 = s.2.
Proof.
  destruct s as [c out]. destruct (Read_spec k c out) as (H1 & H2 & _). done.
Qed.

(** X16: [Read] loses no byte of the response: the bytes it returns,
    at most as many as asked for, followed by what the connection has
    left to read afterwards, are what was left to read before. *)
Theorem Read_loses_no_byte (k : nat) (c : V2.httpConn) (r : V2.Response)
    (out : list V2.HttpRequest) :
  V2.resp c = Some r →
  remaining c = (V2.Read k (c, out)).1.1 +:+ remaining (V2.Read k (c, out)).2.1 ∧
  String.length (V2.Read k (c, out)).1.1 ≤ k.
Proof.
  intros Hr. destruct (Read_spec k c out) as (_ & _ & H). apply H. by rewrite Hr.
Qed.

Lemma Read_loses_no_byte_witness :
  remaining (conn_with (V2.mkResponse 200 "200 OK" (Http.ack_frame 1) true false)) =
    (V2.Read 4 (conn_with (V2.mkResponse 200 "200 OK" (Http.ack_frame 1) true false), [])).1.1
    +:+ remaining
          (V2.Read 4 (conn_with (V2.mkResponse 200 "200 OK" (Http.ack_frame 1) true false), [])).2.1 ∧
  String.length
    (V2.Read 4 (conn_with (V2.mkResponse 200 "200 OK" (Http.ack_frame 1) true false), [])).1.1 ≤ 4.
Proof.
  apply (Read_loses_no_byte 4
           (conn_with (V2.mkResponse 200 "200 OK" (Http.ack_frame 1) true false))
           (V2.mkResponse 200 "200 OK" (Http.ack_frame 1) true false) []).
  reflexivity.
Defined.

(** X17: the end of the body is not an error, and the response is gone
    after it: a [Read] on a response whose body is exhausted returns no
    bytes and no error and drops the response; the next [Read] fails with
    "No HTTP Response" and changes nothing. *)
Theorem Read_at_the_end_drops_the_response (k k' : nat) (c : V2.httpConn)
    (r : V2.Response) (out : list V2.HttpRequest) :
  V2.resp c = Some r →
  V2.body r = "" →
  V2.Read k (c, out) = (("", None), (V2.set_resp None c, out)) ∧
  V2.Read k' (V2.set_resp None c, out) =
    (("", Some (V2.io_other "No HTTP Response")), (V2.set_resp None c, out)).
Proof.
  intros Hr Hb. split.
  - unfold V2.Read, V2.Body_Read. crun. rewrite Hr. simpl. rewrite Hb. reflexivity.
  - reflexivity.
Qed.

Lemma Read_at_the_end_drops_the_response_witness :
  V2.Read 6 (conn_with (V2.mkResponse 200 "200 OK" "" false false), []) =
    (("", None), (V2.set_resp None (conn_with (V2.mkResponse 200 "200 OK" "" false false)), [])) ∧
  V2.Read 6 (V2.set_resp None (conn_with (V2.mkResponse 200 "200 OK" "" false false)), []) =
    (("", Some (V2.io_other "No HTTP Response")),
     (V2.set_resp None (conn_with (V2.mkResponse 200 "200 OK" "" false false)), [])).
Proof.
  apply (Read_at_the_end_drops_the_response 6 6
           (conn_with (V2.mkResponse 200 "200 OK" "" false false))
           (V2.mkResponse 200 "200 OK" "" false false) []).
  - reflexivity.
  - reflexivity.
Defined.

(** X18: a [Read] after a [Push] that was answered with status 200 reads
    from that answer, whatever response the connection held before: the
    bytes returned followed by what is left to read are the body of the
    answer, and what was unread of an earlier response is dropped. *)
Theorem Read_after_Push_reads_the_answer
    (url_error : string → error) (basicAuth : string → string → string)
    (k : nat) (c : V2.httpConn) (out : list V2.HttpRequest) (answer : V2.Response) :
  url_error (V2.url c) = None →
  V2.answer (V2.Transport (V2.http c) (push_request basicAuth c)) = inr answer →
  V2.StatusCode answer = 200%Z →
  V2.body answer =
    (Push_then_Read url_error basicAuth k (c, out)).1.1 +:+
    remaining (Push_then_Read url_error basicAuth k (c, out)).2.1 ∧
  (Push_then_Read url_error basicAuth k (c, out)).2.2 = out ++ [push_request basicAuth c].
Proof.
  intros Hurl Hans Hst.
  set (c1 := V2.set_resp (Some answer)
               (V2.set_buf (V2.unread (V2.Transport (V2.http c) (push_request basicAuth c))) c)).
  assert (Push_then_Read url_error basicAuth k (c, out) =
          V2.Read k (c1, out ++ [push_request basicAuth c])) as ->.
  { unfold Push_then_Read. unfold mbind at 1. unfold V2.C_bind at 1.
    rewrite (Push_run url_error basicAuth c out Hurl). cbv zeta. rewrite Hans.
    case_bool_decide; [done|reflexivity]. }
  destruct (Read_spec k c1 (out ++ [push_request basicAuth c])) as (_ & Hout & H).
  destruct H as [Hsplit _]; [by eexists|].
  split; [exact Hsplit|exact Hout].
Qed.

Lemma Read_after_Push_reads_the_answer_witness :
  V2.body (V2.mkResponse 200 "200 OK" (Http.ack_frame 1) false false) =
    (Push_then_Read sample_url_error sample_basicAuth 4
       (V2.set_buf "A" (conn_with (V2.mkResponse 200 "200 OK" "stale" false false)), [])).1.1 +:+
    remaining
      (Push_then_Read sample_url_error sample_basicAuth 4
         (V2.set_buf "A" (conn_with (V2.mkResponse 200 "200 OK" "stale" false false)), [])).2.1 ∧
  (Push_then_Read sample_url_error sample_basicAuth 4
     (V2.set_buf "A" (conn_with (V2.mkResponse 200 "200 OK" "stale" false false)), [])).2.2 =
    [] ++ [push_request sample_basicAuth
             (V2.set_buf "A" (conn_with (V2.mkResponse 200 "200 OK" "stale" false false)))].
Proof.
  apply (Read_after_Push_reads_the_answer sample_url_error sample_basicAuth 4
           (V2.set_buf "A" (conn_with (V2.mkResponse 200 "200 OK" "stale" false false))) []
           (V2.mkResponse 200 "200 OK" (Http.ack_frame 1) false false)).
  - reflexivity.
  - reflexivity.
  - reflexivity.
Defined.

(** X19: [Close] can be called once: on a connection whose canceler is
    empty, as [NewHTTPClient] makes it, the first call puts the signal in
    and returns nil, leaving the buffer and the stored response alone; as
    nothing takes the signal out while no request is under way, a second
    call waits for ever. *)
Theorem second_Close_waits (c : V2.httpConn) :
  V2.canceler c = 0 →
  ∃ c1,
    V2.Close c = Some (None, c1) ∧
    V2.Close c1 = None ∧
    V2.resp c1 = V2.resp c ∧ V2.buf c1 = V2.buf c.
Proof.
  intros Hc. unfold V2.Close. rewrite Hc. simpl.
  eexists. split; [reflexivity|]. simpl. done.
Qed.

Lemma second_Close_waits_witness :
  ∃ c1,
    V2.Close (sample_conn "http://localhost:5044") = Some (None, c1) ∧
    V2.Close c1 = None ∧
    V2.resp c1 = V2.resp (sample_conn "http://localhost:5044") ∧
    V2.buf c1 = V2.buf (sample_conn "http://localhost:5044").
Proof.
  apply (second_Close_waits (sample_conn "http://localhost:5044")).
  reflexivity.
Defined.

(** ** cmd/tst-lj: the rate limiter *)

Lemma uint64_small n : (0 ≤ n < 2 ^ 64)%Z → TstLj.uint64 n = n.
Proof. intros H. unfold TstLj.uint64. by apply Z.mod_small. Qed.

Lemma int64_small n : (- 2 ^ 63 ≤ n < 2 ^ 63)%Z → TstLj.int64 n = n.
Proof. intros H. unfold TstLj.int64. rewrite Z.mod_small; lia. Qed.

(** X20: for a rate of at most one batch per nanosecond the test server
    gets its rate limiter: the ticker period is one second divided by the
    rate, rounded down (so it is at least a nanosecond and the ticker
    is not slower than the rate asked for), and the channel holds up to
    twice the rate. *)
Theorem rate_limiter_period (limit : Z) :
  (0 < limit ≤ 1000000000)%Z →
  ∃ r,
    TstLj.main_rateLimiter limit = Some (Some r) ∧
    TstLj.interval r = (1000000000 / limit)%Z ∧
    (1 ≤ TstLj.interval r)%Z ∧
    (TstLj.interval r * limit ≤ 1000000000 < (TstLj.interval r + 1) * limit)%Z ∧
    TstLj.burst r = Z.to_nat (2 * limit).
Proof.
  intros Hl.
  assert (Hq : (1 ≤ 1000000000 / limit ≤ 1000000000)%Z).
  { split.
    - apply Z.div_le_lower_bound; lia.
    - apply Z.div_le_upper_bound; nia. }
  exists (TstLj.mkRateLimiter (1000000000 / limit) (Z.to_nat (2 * limit))).
  split_and!; simpl; try lia.
  - unfold TstLj.main_rateLimiter, TstLj.newRateLimiter, Http.second.
    rewrite bool_decide_eq_true_2 by lia.
    rewrite !uint64_small by lia.
    rewrite !int64_small by lia.
    rewrite bool_decide_eq_false_2 by lia.
    rewrite bool_decide_eq_false_2 by lia.
    rewrite bool_decide_eq_false_2 by lia.
    do 3 f_equal. lia.
  - rewrite Z.mul_comm. apply Z.mul_div_le. lia.
  - pose proof (Z.mod_pos_bound 1000000000 limit ltac:(lia)).
    pose proof (Z.div_mod 1000000000 limit ltac:(lia)). nia.
Qed.

Lemma rate_limiter_period_witness :
  ∃ r,
    TstLj.main_rateLimiter 3 = Some (Some r) ∧
    TstLj.interval r = (1000000000 / 3)%Z ∧
    (1 ≤ TstLj.interval r)%Z ∧
    (TstLj.interval r * 3 ≤ 1000000000 < (TstLj.interval r + 1) * 3)%Z ∧
    TstLj.burst r = Z.to_nat (2 * 3).
Proof.
  apply (rate_limiter_period 3). lia.
Defined.

(** X21: a rate above one batch per nanosecond stops the test server
    when it starts: the ticker period rounds down to zero and
    [time.NewTicker] panics. *)
Theorem rate_above_one_per_nanosecond_panics (limit : Z) :
  (1000000000 < limit < 2 ^ 63)%Z →
  TstLj.main_rateLimiter limit = Some None.
Proof.
  intros Hl.
  unfold TstLj.main_rateLimiter, TstLj.newRateLimiter, Http.second.
  rewrite bool_decide_eq_true_2 by lia.
  rewrite !uint64_small by lia.
  rewrite Z.div_small by lia.
  rewrite bool_decide_eq_false_2 by lia.
  by rewrite bool_decide_eq_true_2 by (vm_compute; discriminate).
Qed.

Lemma rate_above_one_per_nanosecond_panics_witness :
  TstLj.main_rateLimiter 1000000001 = Some None.
Proof.
  apply (rate_above_one_per_nanosecond_panics 1000000001). lia.
Defined.
